(** * ifc-viewer: model lifecycle, highlighting, property extraction and
      rule validation

    A shallow embedding of [IFCManager] (model loading, centering,
    highlight subsets, deep property extraction) and of
    [PropertyValidator] (rule validation with progress reporting).

    Conventions of the embedding.
    - The IFC engine ([loader.ifcManager]) and the three.js runtime are
      external: their calls are fields of [IFCLoader] or operations of
      the [Float] class, and a call that can throw or reject returns a
      [fetch].
    - JavaScript numbers used as identifiers and counters are [Z];
      vertex coordinates are an abstract type with the operations the
      code applies to them. Where the code divides two counters, the
      quotient is rounded the way IEEE 754 doubles round it
      ([double]), and a division by zero gives [NaN] or an infinity
      ([jsnumber]).
    - Mutable fields of [IFCManager] ([scene], [currentModel],
      [currentSubset]) are an explicit [State]; the console output and
      the calls made to the engine are appended to [events]. *)

From Stdlib Require Import ZArith String Ascii List Lia.
From Stdlib Require Import QArith Qround Qpower Lqa SpecFloat.
From stdpp Require Import base option list sorting strings gmap.

Set Warnings "-register-all".

Local Open Scope string_scope.
Local Open Scope list_scope.
Local Open Scope Z_scope.

(** ** JavaScript values *)

(** The scalar values the open-schema IFC records carry. *)
Inductive jsval : Type :=
| JUndefined
| JNum (n : Z)
| JStr (s : string).

(** Truthiness as used by [||], [&&] and [if]. *)
Definition truthy (v : jsval) : bool :=
  match v with
  | JUndefined => false
  | JNum n => negb (Z.eqb n 0)
  | JStr s => negb (String.eqb s "")
  end.

(** Strict equality [v === s] against a string. *)
Definition strictEqStr (v : jsval) (s : string) : bool :=
  match v with
  | JStr t => String.eqb t s
  | _ => false
  end.

(** The result of a call that may throw (or of a promise that may
    reject). *)
Inductive fetch (A : Type) : Type :=
| Ok (a : A)
| Throw.
Arguments Ok {A} a.
Arguments Throw {A}.

(** The conditions with which the design lets an asynchronous
    operation reject. *)
Inductive Failure : Type :=
| NoModelLoaded
| InitializationError
| LoadError.

(** Settled state of the promise returned by an [async] method. *)
Inductive outcome (A : Type) : Type :=
| Resolved (a : A)
| Rejected (e : Failure).
Arguments Resolved {A} a.
Arguments Rejected {A} e.

(** ** Double-precision arithmetic

    The numbers of JavaScript are IEEE 754 doubles. Integers below
    2^53 in size are doubles themselves; the result of a division or
    a multiplication is the exact result rounded to the nearest
    double, a tie going to the even significand. The exponent range
    is not modelled: the quotients and products taken here are far
    from overflow and underflow. *)

Definition pow2 (e : Z) : Q := (2 ^ e)%Q.

(** The exponent of a positive number: [2^(ilog2 x) <= x < 2^(ilog2 x + 1)]. *)
Definition ilog2 (x : Q) : Z :=
  let k := Z.log2 (Qnum x) - Z.log2 (Zpos (Qden x)) in
  if Qle_bool (pow2 k) x then k else k - 1.

(** The nearest integer, a tie going to the even one. *)
Definition roundHalfEven (u : Q) : Z :=
  let t := Qfloor u in
  match (u - inject_Z t ?= 1 # 2)%Q with
  | Lt => t
  | Gt => t + 1
  | Eq => if Z.even t then t else t + 1
  end.

(** The distance between the doubles around a positive number: its
    significand has 53 bits. *)
Definition ulp (x : Q) : Q := pow2 (ilog2 x - 52).

Definition roundPositive (x : Q) : Q :=
  (inject_Z (roundHalfEven (x / ulp x)) * ulp x)%Q.

(** The double nearest to a real number. *)
Definition double (x : Q) : Q :=
  match Qnum x with
  | Z0 => 0%Q
  | Zpos _ => roundPositive x
  | Zneg _ => (- roundPositive (- x))%Q
  end.

(** [Math.round]: the nearest integer, a tie going up. *)
Definition mathRound (x : Q) : Z := Qfloor (x + (1 # 2)).

(** [Math.round ((a / b) * 100)] for [b <> 0]: the quotient is
    rounded to a double, so is its product with 100, and the result
    is rounded to an integer. *)
Definition roundPercent (a b : Z) : Z :=
  mathRound (double (double (inject_Z a / inject_Z b) * 100)).

(** A JavaScript number that is an integer or what a division by
    zero makes of one. *)
Inductive jsnumber : Type :=
| Num (z : Z)
| NaN
| PosInfinity
| NegInfinity.
Coercion Num : Z >-> jsnumber.

(** [Math.round ((a / b) * 100)] for any two integers: [0 / 0] is
    [NaN], another division by zero an infinity, and both pass
    through the product and through [Math.round]. *)
Definition percentOf (a b : Z) : jsnumber :=
  if Z.eqb b 0 then
    match a with
    | Z0 => NaN
    | Zpos _ => PosInfinity
    | Zneg _ => NegInfinity
    end
  else Num (roundPercent a b).

(** [x < k]; every comparison with [NaN] is false. *)
Definition lessThan (x : jsnumber) (k : Z) : bool :=
  match x with
  | Num z => Z.ltb z k
  | NaN => false
  | PosInfinity => false
  | NegInfinity => true
  end.

(** The same product in the IEEE 754 operations of the standard
    library, at the format of a double (53 bits of precision,
    exponents below 1024). *)
Definition binary64 (z : Z) : spec_float := binary_normalize 53 1024 z 0 false.

Definition ieeePercent (a b : Z) : spec_float :=
  SFmul 53 1024 (SFdiv 53 1024 (binary64 a) (binary64 b)) (binary64 100).

Definition valueOf (f : spec_float) : option Q :=
  match f with
  | S754_zero _ => Some 0%Q
  | S754_finite s m e =>
      Some ((if s then -1 else 1) * inject_Z (Zpos m) * pow2 e)%Q
  | _ => None
  end.

(** [double] gives the value the IEEE operations give. *)
Definition agrees (a b : Z) : bool :=
  match valueOf (ieeePercent a b) with
  | Some q => Qeq_bool q (double (double (inject_Z a / inject_Z b) * 100))
  | None => false
  end.

Definition upTo (n : Z) : list Z := map Z.of_nat (seq 0 (Z.to_nat n + 1)).

(** ** IFC records *)

(** An open-schema record as returned by [getItemProperties] and
    [getPropertySets]. [Name] holds the [value] of the wrapper when
    the field is present; [HasAssociations] the [value] of each
    handle. *)
Inductive IfcRecord : Type := mkIfcRecord {
  rec_expressID : jsval;
  rec_type : jsval;
  rec_constructor : option string;
  rec_Name : option jsval;
  rec_HasAssociations : option (list jsval);
  rec_HasProperties : option (list IfcRecord)
}.

(** What [getPropertySets] resolves to: an array, or [None] for a
    null or undefined result. *)
Definition PsetList : Type := option (list IfcRecord).

(** ** Geometry *)

(** Operations on vertex coordinates (IEEE doubles in the program). *)
Class Float (num : Type) : Type := {
  fzero : num;
  fadd : num -> num -> num;
  fneg : num -> num;
  fmin : num -> num -> num;
  fmax : num -> num -> num;
  fhalf : num -> num
}.

#[export] Instance Float_Z : Float Z := {|
  fzero := 0;
  fadd := Z.add;
  fneg := Z.opp;
  fmin := Z.min;
  fmax := Z.max;
  fhalf := fun a => a / 2
|}.

Section Geometry.
Context {num : Type} `{Float num}.

Record Vector3 : Type := mkVector3 { vx : num; vy : num; vz : num }.

Definition vadd (a b : Vector3) : Vector3 :=
  mkVector3 (fadd (vx a) (vx b)) (fadd (vy a) (vy b)) (fadd (vz a) (vz b)).
Definition vneg (a : Vector3) : Vector3 :=
  mkVector3 (fneg (vx a)) (fneg (vy a)) (fneg (vz a)).
Definition vmin (a b : Vector3) : Vector3 :=
  mkVector3 (fmin (vx a) (vx b)) (fmin (vy a) (vy b)) (fmin (vz a) (vz b)).
Definition vmax (a b : Vector3) : Vector3 :=
  mkVector3 (fmax (vx a) (vx b)) (fmax (vy a) (vy b)) (fmax (vz a) (vz b)).
Definition vzero : Vector3 := mkVector3 fzero fzero fzero.

(** [THREE.Box3]; a freshly made box is empty. *)
Inductive Box3 : Type :=
| EmptyBox
| Box (bmin bmax : Vector3).

Definition expandByPoint (b : Box3) (p : Vector3) : Box3 :=
  match b with
  | EmptyBox => Box p p
  | Box lo hi => Box (vmin lo p) (vmax hi p)
  end.

Definition setFromPoints (ps : list Vector3) : Box3 :=
  fold_left expandByPoint ps EmptyBox.

Definition boxUnion (a b : Box3) : Box3 :=
  match a, b with
  | EmptyBox, _ => b
  | _, EmptyBox => a
  | Box lo1 hi1, Box lo2 hi2 => Box (vmin lo1 lo2) (vmax hi1 hi2)
  end.

Definition boxIsEmpty (b : Box3) : bool :=
  match b with EmptyBox => true | Box _ _ => false end.

(** [Box3.applyMatrix4]: an empty box stays empty, otherwise the
    box of the eight transformed corners. The matrix is given by its
    action on points. *)
Definition boxApplyMatrix4 (b : Box3) (m : Vector3 -> Vector3) : Box3 :=
  match b with
  | EmptyBox => EmptyBox
  | Box lo hi =>
      setFromPoints
        [ m (mkVector3 (vx lo) (vy lo) (vz lo));
          m (mkVector3 (vx lo) (vy lo) (vz hi));
          m (mkVector3 (vx lo) (vy hi) (vz lo));
          m (mkVector3 (vx lo) (vy hi) (vz hi));
          m (mkVector3 (vx hi) (vy lo) (vz lo));
          m (mkVector3 (vx hi) (vy lo) (vz hi));
          m (mkVector3 (vx hi) (vy hi) (vz lo));
          m (mkVector3 (vx hi) (vy hi) (vz hi)) ]
  end.

(** [Box3.getCenter]: the zero vector for an empty box, else
    [(min + max) * 0.5]. *)
Definition boxGetCenter (b : Box3) : Vector3 :=
  match b with
  | EmptyBox => vzero
  | Box lo hi =>
      let s := vadd lo hi in
      mkVector3 (fhalf (vx s)) (fhalf (vy s)) (fhalf (vz s))
  end.

(** [THREE.BufferGeometry]: the position attribute and the cached
    bounding box ([None] until computed). The bounding sphere, a
    second cache that the viewer never reads, is left out. *)
Record BufferGeometry : Type := mkGeometry {
  position : list Vector3;
  boundingBox : option Box3
}.

Definition computeBoundingBox (g : BufferGeometry) : BufferGeometry :=
  mkGeometry (position g) (Some (setFromPoints (position g))).

(** [geometry.translate(x, y, z)] adds the vector to every vertex
    and refreshes the cached box when there is one. *)
Definition translate (g : BufferGeometry) (d : Vector3) : BufferGeometry :=
  let moved := map (fun v => vadd v d) (position g) in
  mkGeometry moved
             (match boundingBox g with
              | Some _ => Some (setFromPoints moved)
              | None => None
              end).

Inductive MaterialKind : Type :=
| MeshStandardMaterial
| MeshPhongMaterial
| MeshBasicMaterial
| OtherMaterial.

Record Material : Type := mkMaterial {
  matKind : MaterialKind;
  polygonOffset : bool
}.

(** The fields of a [THREE.Mesh] the program reads or writes.
    [expressID] and [modelID] are the ad-hoc properties the viewer
    attaches; [matrixWorld] is the world matrix as a map on points. *)
Record Mesh : Type := mkMesh {
  expressID : option Z;
  modelID : option Z;
  geometry : option BufferGeometry;
  material : option (list Material);
  matrixWorld : Vector3 -> Vector3
}.

Inductive NodeKind : Type :=
| KGroup
| KMesh (m : Mesh)
| KLineSegments.

(** A node of the scene graph: its local matrix (as a map on
    points), what it is, and its children. *)
Inductive Object3D : Type :=
| Obj (matrix : Vector3 -> Vector3) (kind : NodeKind)
      (children : list Object3D).

(** [object.traverse]: the node itself, then its descendants, in
    order. *)
Fixpoint traverse (o : Object3D) : list Object3D :=
  match o with
  | Obj _ _ cs => o :: concat (map traverse cs)
  end.

Definition asMesh (o : Object3D) : option Mesh :=
  match o with
  | Obj _ (KMesh m) _ => Some m
  | _ => None
  end.

(** The nodes that are [instanceof THREE.Mesh], in traversal
    order. *)
Definition collectMeshes (o : Object3D) : list Mesh :=
  omap asMesh (traverse o).

(** In-place update of every mesh of the graph. *)
Fixpoint updateMeshes (f : Mesh -> Mesh) (o : Object3D) : Object3D :=
  match o with
  | Obj l k cs =>
      Obj l (match k with KMesh m => KMesh (f m) | _ => k end)
          (map (updateMeshes f) cs)
  end.

(** [updateMatrixWorld(true)] below a parent whose world matrix is
    [pw]: every mesh gets the composition of the matrices on its
    path. *)
Fixpoint updateWorld (pw : Vector3 -> Vector3) (o : Object3D) : Object3D :=
  match o with
  | Obj l k cs =>
      let w := fun p => pw (l p) in
      Obj l
          (match k with
           | KMesh m =>
               KMesh (mkMesh (expressID m) (modelID m) (geometry m)
                             (material m) w)
           | _ => k
           end)
          (map (updateWorld w) cs)
  end.

(** The loaded model: the root node with the fields the viewer
    reads or sets on it. [modelUid] is the identity of the object
    (its [id]); [offset] is the ad-hoc property written by
    [centerModel], absent until then. *)
Record Model : Type := mkModel {
  modelUid : Z;
  root : Object3D;
  modelPosition : Vector3;
  offset : option Vector3
}.

Definition updateMatrixWorld (model : Model) : Model :=
  mkModel (modelUid model)
          (updateWorld (fun p => vadd p (modelPosition model)) (root model))
          (modelPosition model) (offset model).
End Geometry.

Arguments Vector3 num : clear implicits.
Arguments Box3 num : clear implicits.
Arguments BufferGeometry num : clear implicits.
Arguments Mesh num : clear implicits.
Arguments NodeKind num : clear implicits.
Arguments Object3D num : clear implicits.
Arguments Model num : clear implicits.

(** ** The IFC engine *)

(** A download progress event of [loader.load]. *)
Record ProgressEvent : Type := mkProgressEvent {
  lengthComputable : bool;
  ev_loaded : Z;
  ev_total : Z
}.

(** The calls the viewer makes to [IFCLoader] and its [ifcManager].
    - [useWebWorkers]: the outcome of the engine set-up awaited through
      [loaderReady];
    - [load]: the progress events, then the parsed model or a failure;
    - [createSubset modelID ids]: the subset mesh built with the
      highlight material, [removePrevious: true];
    - [removeSubset modelID]: removal of the highlight-material
      subset. *)
Record IFCLoader (num : Type) `{Float num} : Type := mkIFCLoader {
  useWebWorkers : fetch unit;
  load : string -> list ProgressEvent * fetch (Model num);
  getItemProperties : Z -> jsval -> fetch IfcRecord;
  getPropertySets : Z -> jsval -> fetch PsetList;
  createSubset : Z -> list Z -> fetch (Mesh num);
  removeSubset : Z -> fetch unit
}.
Arguments useWebWorkers {num _} _.
Arguments load {num _} _ _.
Arguments getItemProperties {num _} _ _ _.
Arguments getPropertySets {num _} _ _ _.
Arguments createSubset {num _} _ _ _.
Arguments removeSubset {num _} _ _.

(** ** IFCManager *)

Record LoadingProgress : Type := mkLoadingProgress {
  loaded : Z;
  total : Z;
  percentage : jsnumber;
  status : string
}.

(** What the manager does to the outside, in order. *)
Inductive Event : Type :=
| ConsoleLog (msg : string)
| ConsoleWarn (msg : string)
| ConsoleError (msg : string)
| OnProgress (p : LoadingProgress)
| DisposeGeometry
| DisposeMaterial
| OnPercent (percent : Z)
| RemoveSubsetCall (modelID : Z)
| CreateSubsetCall (modelID : Z) (ids : list Z).

(** The property bundle returned by [getElementProperties].
    [typeProperties] carries the type record and, when the second
    fetch succeeded, the [propertySets] attached to it. *)
Record Bundle : Type := mkBundle {
  properties : IfcRecord;
  propertySets : PsetList;
  materials : list IfcRecord;
  typeProperties : option (IfcRecord * option PsetList);
  bundle_expressID : Z;
  bundle_modelID : Z
}.

Section IFCManager.
Context {num : Type} `{Float num}.
Variable loader : IFCLoader num.

(** The mutable fields of the manager. [scene] lists the identities
    of the models added to the scene. *)
Record State : Type := mkState {
  scene : list Z;
  currentModel : option (Model num);
  currentSubset : option (Mesh num);
  events : list Event
}.

Definition emit (st : State) (es : list Event) : State :=
  mkState (scene st) (currentModel st) (currentSubset st) (events st ++ es).

Definition setCurrentModel (st : State) (m : option (Model num)) : State :=
  mkState (scene st) m (currentSubset st) (events st).

Definition setCurrentSubset (st : State) (s : option (Mesh num)) : State :=
  mkState (scene st) (currentModel st) s (events st).

Definition setScene (st : State) (sc : list Z) : State :=
  mkState sc (currentModel st) (currentSubset st) (events st).

(** The [dispose] calls made on one mesh. *)
Definition disposeMesh (m : Mesh num) : list Event :=
  (match geometry m with Some _ => [DisposeGeometry] | None => [] end)
  ++ (match material m with
      | Some ms => map (fun _ => DisposeMaterial) ms
      | None => []
      end).

Definition disposeCurrentModel (st : State) : State :=
  match currentModel st with
  | Some model =>
      let st := emit st [ConsoleLog "Disposing previous model..."] in
      let st := setScene st
                  (filter (fun i => i <> modelUid model) (scene st)) in
      let st := emit st (concat (map disposeMesh (collectMeshes (root model)))) in
      setCurrentModel st None
  | None => st
  end.

(** The union of the world-space boxes of the meshes that have a
    geometry. *)
Definition overallBox (meshes : list (Mesh num)) : Box3 num :=
  fold_left
    (fun bbox mesh =>
       match geometry mesh with
       | Some g =>
           boxUnion bbox
             (boxApplyMatrix4 (setFromPoints (position g)) (matrixWorld mesh))
       | None => bbox
       end)
    meshes EmptyBox.

Definition withGeometry (f : BufferGeometry num -> BufferGeometry num)
    (m : Mesh num) : Mesh num :=
  mkMesh (expressID m) (modelID m) (f <$> geometry m) (material m)
         (matrixWorld m).

Definition setRoot (model : Model num) (r : Object3D num) : Model num :=
  mkModel (modelUid model) r (modelPosition model) (offset model).

(** [centerModel]: the model after the call and what was written to
    the console. *)
Definition centerModel (model : Model num) : Model num * list Event :=
  let model := updateMatrixWorld model in
  let meshes := collectMeshes (root model) in
  match meshes with
  | [] => (model, [ConsoleWarn "No meshes found in model to center"])
  | _ :: _ =>
      let model :=
        setRoot model (updateMeshes (withGeometry computeBoundingBox) (root model)) in
      let bbox := overallBox meshes in
      if boxIsEmpty bbox then
        (model, [ConsoleWarn "Computed bounding box is empty"])
      else
        let center := boxGetCenter bbox in
        let shift := fun g => computeBoundingBox (translate g (vneg center)) in
        let model :=
          mkModel (modelUid model)
                  (updateMeshes (withGeometry shift) (root model))
                  vzero (Some center) in
        (updateMatrixWorld model,
         [ConsoleLog "Centering model geometry from origin:"])
  end.

Definition offsetMaterial (mat : Material) : Material :=
  match matKind mat with
  | MeshStandardMaterial | MeshPhongMaterial => mkMaterial (matKind mat) true
  | _ => mat
  end.

(** [setupEdges]: every mesh with a geometry gets polygon offset on
    its standard and Phong materials and a [LineSegments] child. *)
Fixpoint setupEdges (o : Object3D num) : Object3D num :=
  match o with
  | Obj l k cs =>
      let cs := map setupEdges cs in
      match k with
      | KMesh m =>
          match geometry m with
          | Some _ =>
              Obj l
                  (KMesh (mkMesh (expressID m) (modelID m) (geometry m)
                                 (map offsetMaterial <$> material m)
                                 (matrixWorld m)))
                  (cs ++ [Obj (fun p => p) KLineSegments []])
          | None => Obj l k cs
          end
      | _ => Obj l k cs
      end
  end.

Definition reportProgress (onProgress : bool) (st : State)
    (p : LoadingProgress) : State :=
  if onProgress then emit st [OnProgress p] else st.

(** The [onProgress] handler given to [loader.load]. *)
Definition downloadProgress (onProgress : bool) (st : State)
    (ev : ProgressEvent) : State :=
  if onProgress && lengthComputable ev then
    let percentage := percentOf (ev_loaded ev) (ev_total ev) in
    emit st [OnProgress
               (mkLoadingProgress (ev_loaded ev) (ev_total ev) percentage
                  (if lessThan percentage 100 then "Downloading..."
                   else "Processing geometry..."))]
  else st.

(** [loadIFC url onProgress]; [onProgress] tells whether a callback
    was given, its calls are [OnProgress] events. *)
Definition loadIFC (st : State) (url : string) (onProgress : bool)
    : State * outcome (Model num) :=
  match useWebWorkers loader with
  | Throw => (st, Rejected InitializationError)
  | Ok _ =>
      let st := disposeCurrentModel st in
      let st := reportProgress onProgress st
                  (mkLoadingProgress 0 100 0 "Starting download...") in
      let '(evs, res) := load loader url in
      let st := fold_left (downloadProgress onProgress) evs st in
      match res with
      | Ok ifcModel =>
          let st := setScene st (scene st ++ [modelUid ifcModel]) in
          let '(ifcModel, out) := centerModel ifcModel in
          let st := emit (setCurrentModel st (Some ifcModel)) out in
          let st := reportProgress onProgress st
                      (mkLoadingProgress 100 100 100 "Complete!") in
          let st := emit st [ConsoleLog "IFC Model loaded successfully and centered"] in
          let ifcModel := setRoot ifcModel (setupEdges (root ifcModel)) in
          (setCurrentModel st (Some ifcModel), Resolved ifcModel)
      | Throw =>
          let st := emit st [ConsoleError "IFCLoader error:";
                             ConsoleError "Error loading IFC model:"] in
          let st := reportProgress onProgress st
                      (mkLoadingProgress 0 100 0 "Error loading model") in
          (st, Rejected LoadError)
      end
  end.

Definition getCurrentModel (st : State) : option (Model num) :=
  currentModel st.

(** Step 3 of [getElementProperties]: the loop over the
    associations runs inside one [try]; a failing fetch ends the
    loop and keeps what was pushed before it. *)
Fixpoint collectMaterials (modelID : Z) (assocs : list jsval)
    (materials : list IfcRecord) : list IfcRecord :=
  match assocs with
  | [] => materials
  | assoc :: rest =>
      match getItemProperties loader modelID assoc with
      | Ok assocProps =>
          if strictEqStr (rec_type assocProps) "IFCMATERIAL"
             || bool_decide (is_Some (rec_Name assocProps))
          then collectMaterials modelID rest (materials ++ [assocProps])
          else collectMaterials modelID rest materials
      | Throw => materials
      end
  end.

(** Step 4: the type record, with its property sets attached when
    the second fetch succeeds. *)
Definition resolveType (modelID : Z) (properties : IfcRecord)
    : option (IfcRecord * option PsetList) :=
  if truthy (rec_type properties) then
    match getItemProperties loader modelID (rec_type properties) with
    | Ok typeProperties =>
        match getPropertySets loader modelID (rec_type properties) with
        | Ok typePsets => Some (typeProperties, Some typePsets)
        | Throw => Some (typeProperties, None)
        end
    | Throw => None
    end
  else None.

(** One turn of the fallback loop of step 5, with its own [try]: a
    failing fetch, or [push] on a null array, leaves the sets as
    they were. *)
Definition fallbackStep (modelID : Z) (propertySets : PsetList)
    (assoc : jsval) : PsetList :=
  match getItemProperties loader modelID assoc with
  | Ok assocProps =>
      if strictEqStr (rec_type assocProps) "IFCPROPERTYSET"
         || strictEqStr (rec_type assocProps) "IFCELEMENTQUANTITY"
      then
        match getItemProperties loader modelID (rec_expressID assocProps) with
        | Ok fullSet =>
            match propertySets with
            | Some sets => Some (sets ++ [fullSet])
            | None => None
            end
        | Throw => propertySets
        end
      else propertySets
  | Throw => propertySets
  end.

Definition psetsEmpty (propertySets : PsetList) : bool :=
  match propertySets with
  | None => true
  | Some sets => bool_decide (sets = [])
  end.

Definition fallbackPsets (modelID : Z) (properties : IfcRecord)
    (propertySets : PsetList) : PsetList :=
  match rec_HasAssociations properties with
  | Some assocs =>
      if psetsEmpty propertySets
      then fold_left (fallbackStep modelID) assocs propertySets
      else propertySets
  | None => propertySets
  end.

(** [getElementProperties mesh]; [None] is the [null] result. *)
Definition getElementProperties (mesh : Mesh num) : option Bundle :=
  match expressID mesh with
  | None => None
  | Some eid =>
      let mid := default 0 (modelID mesh) in
      match getItemProperties loader mid (JNum eid) with
      | Throw => None
      | Ok props =>
          match getPropertySets loader mid (JNum eid) with
          | Throw => None
          | Ok psets =>
              let mats :=
                match rec_HasAssociations props with
                | Some assocs => collectMaterials mid assocs []
                | None => []
                end in
              let typeProps := resolveType mid props in
              let psets := fallbackPsets mid props psets in
              Some (mkBundle props psets mats typeProps eid mid)
          end
      end
  end.

(** [removeHighlight]: the assignment [currentSubset = null] is
    inside the [try], after the engine call. *)
Definition removeHighlight (st : State) : State :=
  match currentSubset st with
  | Some subset =>
      let mid := default 0 (modelID subset) in
      let st := emit st [RemoveSubsetCall mid] in
      match removeSubset loader mid with
      | Ok _ => setCurrentSubset st None
      | Throw => emit st [ConsoleError "Error removing highlight:"]
      end
  | None => st
  end.

Definition highlightElement (st : State) (modelID expressID : Z) : State :=
  let st := removeHighlight st in
  match currentModel st with
  | None => st
  | Some model =>
      let st := emit st [CreateSubsetCall modelID [expressID]] in
      match createSubset loader modelID [expressID] with
      | Ok subset =>
          let subset :=
            match offset model with
            | Some off => withGeometry (fun g => translate g (vneg off)) subset
            | None => subset
            end in
          setCurrentSubset st (Some subset)
      | Throw => emit st [ConsoleError "Error creating highlight subset:"]
      end
  end.
End IFCManager.

(** ** PropertyValidator *)

(** [String.prototype.toUpperCase] on ASCII text, which the class
    names of IFC and of the rules are: the letters a to z are mapped,
    every other character is kept. *)
Definition upperChar (c : ascii) : ascii :=
  let n := nat_of_ascii c in
  if (97 <=? n)%nat && (n <=? 122)%nat then ascii_of_nat (n - 32) else c.

Fixpoint toUpperCase (s : string) : string :=
  match s with
  | EmptyString => EmptyString
  | String c s => String (upperChar c) (toUpperCase s)
  end.

(** [s.includes(t)]: [t] occurs in [s] as a substring. *)
Fixpoint includes (s t : string) : bool :=
  String.prefix t s
  || match s with
     | EmptyString => false
     | String _ s => includes s t
     end.

(** [requiredProperties] is listed in the order of [Object.entries]. *)
Record ValidationRule : Type := mkRule {
  ifcClass : string;
  requiredPsets : list string;
  requiredProperties : list (string * list string)
}.

Record ValidationResult : Type := mkResult {
  elementID : option Z;
  result_modelID : Z;
  result_ifcClass : string;
  missingPsets : list string;
  missingProperties : gmap string (list string);
  passed : bool
}.

(** The three locals of [validateElement] that the rule loops
    update. [missingProperties] is a plain object used as a map from
    the names of property sets, which are taken not to be names of
    members of [Object.prototype]. *)
Record Findings : Type := mkFindings {
  f_missingPsets : list string;
  f_missingProperties : gmap string (list string);
  hasError : bool
}.

(** A [for ... of] loop whose body may throw. *)
Fixpoint forOf {A B : Type} (body : A -> B -> fetch A) (l : list B) (a : A)
    : fetch A :=
  match l with
  | [] => Ok a
  | b :: l =>
      match body a b with
      | Ok a => forOf body l a
      | Throw => Throw
      end
  end.

(** [if (!l.includes(x)) l.push(x)]. *)
Definition pushUnique (l : list string) (x : string) : list string :=
  if bool_decide (x ∈ l) then l else l ++ [x].

(** The callback [x => x.Name && x.Name.value === name]. *)
Definition nameIs (name : string) (x : IfcRecord) : bool :=
  match rec_Name x with
  | Some v => strictEqStr v name
  | None => false
  end.

(** [propertySets.find(...)]; calling it on a null result throws. *)
Definition findPset (propertySets : PsetList) (name : string)
    : fetch (option IfcRecord) :=
  match propertySets with
  | Some sets => Ok (List.find (nameIs name) sets)
  | None => Throw
  end.

Definition checkPset (propertySets : PsetList) (f : Findings)
    (reqPset : string) : fetch Findings :=
  match findPset propertySets reqPset with
  | Ok (Some _) => Ok f
  | Ok None =>
      Ok (mkFindings (pushUnique (f_missingPsets f) reqPset)
                     (f_missingProperties f) true)
  | Throw => Throw
  end.

(** One required property of a set that has [HasProperties]. *)
Definition checkProperty (hasProperties : list IfcRecord) (psetName : string)
    (f : Findings) (propName : string) : Findings :=
  if existsb (nameIs propName) hasProperties then f
  else
    let listed := default [] (f_missingProperties f !! psetName) in
    mkFindings (f_missingPsets f)
               (<[psetName := pushUnique listed propName]> (f_missingProperties f))
               true.

Definition checkProperties (propertySets : PsetList) (f : Findings)
    (entry : string * list string) : fetch Findings :=
  let '(psetName, reqProps) := entry in
  match findPset propertySets psetName with
  | Ok None => Ok f
  | Ok (Some foundPset) =>
      match rec_HasProperties foundPset with
      | Some hasProperties =>
          Ok (fold_left (checkProperty hasProperties psetName) reqProps f)
      | None =>
          let listed := default [] (f_missingProperties f !! psetName) in
          Ok (mkFindings (f_missingPsets f)
                         (<[psetName := listed ++ reqProps]> (f_missingProperties f))
                         true)
      end
  | Throw => Throw
  end.

Definition checkRule (propertySets : PsetList) (f : Findings)
    (rule : ValidationRule) : fetch Findings :=
  match forOf (checkPset propertySets) (requiredPsets rule) f with
  | Ok f => forOf (checkProperties propertySets) (requiredProperties rule) f
  | Throw => Throw
  end.

Definition applicable (normalizedType : string) (r : ValidationRule) : bool :=
  includes normalizedType (toUpperCase (ifcClass r)).

Definition jsOfId (i : option Z) : jsval :=
  match i with Some n => JNum n | None => JUndefined end.

Section PropertyValidator.
Context {num : Type} `{Float num}.
Variable loader : IFCLoader num.

(** [validateElement mesh rules]; [None] is the [null] result, also
    returned from the [catch]. *)
Definition validateElement (mesh : Mesh num) (rules : list ValidationRule)
    : option ValidationResult :=
  let eid := expressID mesh in
  let mid := default 0 (modelID mesh) in
  match getItemProperties loader mid (jsOfId eid) with
  | Throw => None
  | Ok props =>
      let ifcType :=
        if truthy (rec_type props) then rec_type props
        else JStr (default "" (rec_constructor props)) in
      match ifcType with
      | JStr t =>
          let normalizedType := toUpperCase t in
          let applicableRules := List.filter (applicable normalizedType) rules in
          match applicableRules with
          | [] => None
          | _ :: _ =>
              match getPropertySets loader mid (jsOfId eid) with
              | Throw => None
              | Ok propertySets =>
                  match forOf (checkRule propertySets) applicableRules
                              (mkFindings [] ∅ false) with
                  | Throw => None
                  | Ok f =>
                      if hasError f then
                        Some (mkResult eid mid normalizedType (f_missingPsets f)
                                       (f_missingProperties f) false)
                      else
                        Some (mkResult eid mid normalizedType [] ∅ true)
                  end
              end
          end
      | _ => None
      end
  end.

(** What the loop of [validateModel] keeps of one element: its
    result when that is a failing one. *)
Definition failure (rules : list ValidationRule) (mesh : Mesh num)
    : option ValidationResult :=
  match validateElement mesh rules with
  | Some result => if passed result then None else Some result
  | None => None
  end.

(** The meshes [validateModel] collects: those carrying an
    [expressID]. *)
Definition indexedMeshes (model : Model num) : list (Mesh num) :=
  List.filter (fun m => bool_decide (is_Some (expressID m)))
              (collectMeshes (root model)).

(** The locals of the validation loop: results so far, number of
    elements processed, calls made to [onProgress]. Inside the loop
    [total] counts at least the mesh at hand, so the percentage is a
    finite number. *)
Definition validateStep (rules : list ValidationRule) (onProgress : bool)
    (total : Z) (acc : list ValidationResult * Z * list Z) (mesh : Mesh num)
    : list ValidationResult * Z * list Z :=
  let '(results, processed, calls) := acc in
  let results :=
    match validateElement mesh rules with
    | Some result => if passed result then results else results ++ [result]
    | None => results
    end in
  let processed := processed + 1 in
  let calls :=
    if onProgress && (processed mod 10 =? 0)
    then calls ++ [roundPercent processed total]
    else calls in
  (results, processed, calls).

(** What one run of [validateModel] yields: the settled promise, the
    values passed to [onProgress] in order, and the console output. *)
Record ValidationRun : Type := mkRun {
  settled : outcome (list ValidationResult);
  progressCalls : list Z;
  console : list Event
}.

(** [validateModel rules onProgress]; [onProgress] tells whether a
    callback was given. *)
Definition validateModel (st : State) (rules : list ValidationRule)
    (onProgress : bool) : ValidationRun :=
  match getCurrentModel st with
  | None => mkRun (Resolved []) [] [ConsoleWarn "No model loaded to validate."]
  | Some model =>
      let meshes := indexedMeshes model in
      let total := Z.of_nat (length meshes) in
      let '(results, _, calls) :=
        fold_left (validateStep rules onProgress total) meshes ([], 0, []) in
      mkRun (Resolved results)
            (if onProgress then calls ++ [100] else calls)
            [ConsoleLog "Starting validation on elements..."]
  end.
End PropertyValidator.

(** What the rule loops maintain, relative to the fetched sets: no set
    name is listed twice in [missingPsets]; [missingProperties] only
    has entries for sets that were found; and an element with a
    missing set is flagged. *)
Definition consistent (propertySets : PsetList) (f : Findings) : Prop :=
  NoDup (f_missingPsets f)
  /\ (forall n, is_Some (f_missingProperties f !! n) ->
                exists ps, findPset propertySets n = Ok (Some ps))
  /\ (f_missingPsets f <> [] -> hasError f = true).

(** Events other than a [removeSubset] call. *)
Definition notRemoval (e : Event) : Prop :=
  match e with
  | RemoveSubsetCall _ => False
  | _ => True
  end.

(** Events other than a [createSubset] call. *)
Definition notCreation (e : Event) : Prop :=
  match e with
  | CreateSubsetCall _ _ => False
  | _ => True
  end.

(** [st'] comes from [st] by steps that leave the highlight alone:
    same [currentSubset], and only events that are not [removeSubset]
    calls were added. *)
Definition untouched {num : Type} `{Float num} (st st' : State (num := num))
    : Prop :=
  currentSubset st' = currentSubset st
  /\ exists es, events st' = events st ++ es /\ Forall notRemoval es.

(** The element counts at which the validation loop reports: every
    tenth one up to [n]. *)
Definition reportPoints (n : Z) : list Z :=
  List.filter (fun p => p mod 10 =? 0) (seqZ 1 n).

(** ** Sample data

    A wall whose [Pset_WallCommon] is present but has no
    [HasProperties], a slab with a complete [Pset_SlabCommon], and
    engines serving them. Coordinates are integers. *)
Module Demo.
Definition identity : Vector3 Z -> Vector3 Z := fun p => p.

Definition wallRecord : IfcRecord :=
  mkIfcRecord (JNum 1) (JStr "IfcWallStandardCase") (Some "Object")
              (Some (JStr "Wall-01")) None None.

Definition emptyWallCommon : IfcRecord :=
  mkIfcRecord (JNum 7) (JStr "IFCPROPERTYSET") (Some "Object")
              (Some (JStr "Pset_WallCommon")) None None.

Definition wallMesh : Mesh Z := mkMesh (Some 1) None None None identity.

Definition triangle : BufferGeometry Z :=
  mkGeometry [mkVector3 100 200 300; mkVector3 102 200 300;
              mkVector3 100 204 300] None.

Definition subsetMesh : Mesh Z :=
  mkMesh None (Some 0) (Some triangle)
         (Some [mkMaterial MeshBasicMaterial false]) identity.

Definition emptyRoot : Object3D Z := Obj identity KGroup [].

Definition emptyModel : Model Z :=
  mkModel 11 emptyRoot (mkVector3 0 0 0) None.

Definition wallModel : Model Z :=
  mkModel 12 (Obj identity KGroup [Obj identity (KMesh wallMesh) []])
          (mkVector3 0 0 0) None.

Definition centeredModel : Model Z :=
  mkModel 13 (Obj identity KGroup [Obj identity (KMesh wallMesh) []])
          (mkVector3 0 0 0) (Some (mkVector3 100 200 300)).

(** An engine that knows the wall and builds [subsetMesh] on
    request. *)
Definition wallLoader : IFCLoader Z :=
  mkIFCLoader Z _ (Ok tt)
    (fun _ => ([mkProgressEvent true 50 100], Ok emptyModel))
    (fun _ _ => Ok wallRecord)
    (fun _ _ => Ok (Some [emptyWallCommon]))
    (fun _ _ => Ok subsetMesh)
    (fun _ => Ok tt).

(** The same engine with a failing [getPropertySets]. *)
Definition noPsetsLoader : IFCLoader Z :=
  mkIFCLoader Z _ (Ok tt)
    (fun _ => ([], Ok emptyModel))
    (fun _ _ => Ok wallRecord)
    (fun _ _ => Throw)
    (fun _ _ => Ok subsetMesh)
    (fun _ => Ok tt).

(** The same engine with a failing [removeSubset]. *)
Definition stuckLoader : IFCLoader Z :=
  mkIFCLoader Z _ (Ok tt)
    (fun _ => ([], Throw))
    (fun _ _ => Ok wallRecord)
    (fun _ _ => Ok (Some [emptyWallCommon]))
    (fun _ _ => Ok subsetMesh)
    (fun _ => Throw).

Definition idle : State (num := Z) := mkState [] None None [].
Definition viewingWall : State (num := Z) :=
  mkState [12] (Some wallModel) None [].
(** Twenty-five walls under one root. *)
Definition wallRow : Model Z :=
  mkModel 14 (Obj identity KGroup
                  (replicate 25 (Obj identity (KMesh wallMesh) [])))
          (mkVector3 0 0 0) None.
Definition viewingRow : State (num := Z) :=
  mkState [14] (Some wallRow) None [].
Definition highlightedWall : State (num := Z) :=
  mkState [12] (Some wallModel) (Some subsetMesh) [].
Definition orphanHighlight : State (num := Z) :=
  mkState [] None (Some subsetMesh) [].

(** The default rules of the validation panel. *)
Definition defaultRules : list ValidationRule :=
  [ mkRule "IFCWALL" ["Pset_WallCommon"]
           [("Pset_WallCommon", ["LoadBearing"; "IsExternal"])];
    mkRule "IFCSLAB" ["Pset_SlabCommon"]
           [("Pset_SlabCommon", ["LoadBearing"])] ].

(** Two rules that both apply to a standard-case wall and ask for
    the same property. *)
Definition overlappingRules : list ValidationRule :=
  [ mkRule "IFCWALL" [] [("Pset_WallCommon", ["LoadBearing"])];
    mkRule "Wall" [] [("Pset_WallCommon", ["LoadBearing"])] ].

(** A rule asking for a set the wall does not have. *)
Definition fireRule : ValidationRule :=
  mkRule "IFCWALL" ["Pset_FireSafety"] [("Pset_FireSafety", ["FireRating"])].

(** A rule that names a set without asking for any property. *)
Definition presenceRule : list ValidationRule :=
  [ mkRule "IFCWALL" [] [("Pset_WallCommon", [])] ].
End Demo.

(** ** Class labels *)

(** A JavaScript string is a sequence of UTF-16 code units; the
    string literals of the code are ASCII. *)
Definition jsstring : Type := list Z.

Definition unitsOf (s : string) : jsstring :=
  map (fun c => Z.of_nat (nat_of_ascii c)) (list_ascii_of_string s).

(** The class [[A-Z]]. *)
Definition isCapital (u : Z) : bool := (65 <=? u) && (u <=? 90).

(** What [trim] removes: the white space and the line terminators of
    ECMAScript, which are U+0009 to U+000D, U+0020, U+00A0, U+1680,
    U+2000 to U+200A, U+2028, U+2029, U+202F, U+205F, U+3000 and
    U+FEFF. *)
Definition isWhiteSpace (u : Z) : bool :=
  ((9 <=? u) && (u <=? 13)) || (u =? 32) || (u =? 160) || (u =? 5760)
  || ((8192 <=? u) && (u <=? 8202)) || (u =? 8232) || (u =? 8233)
  || (u =? 8239) || (u =? 8287) || (u =? 12288) || (u =? 65279).

Fixpoint startsWith (s p : jsstring) : bool :=
  match p, s with
  | [], _ => true
  | c :: p, d :: s => (c =? d) && startsWith s p
  | _ :: _, [] => false
  end.

(** [s.replace(/^Ifc/, "")]. *)
Definition stripIfc (s : jsstring) : jsstring :=
  if startsWith s (unitsOf "Ifc") then drop 3 s else s.

(** [s.replace(/([A-Z])/g, " $1")]. *)
Fixpoint spaceCapitals (s : jsstring) : jsstring :=
  match s with
  | [] => []
  | u :: s =>
      if isCapital u then 32 :: u :: spaceCapitals s
      else u :: spaceCapitals s
  end.

Fixpoint trimStart (s : jsstring) : jsstring :=
  match s with
  | [] => []
  | u :: s' => if isWhiteSpace u then trimStart s' else s
  end.

Fixpoint trimEnd (s : jsstring) : jsstring :=
  match s with
  | [] => []
  | u :: s' =>
      match trimEnd s' with
      | [] => if isWhiteSpace u then [] else [u]
      | t => u :: t
      end
  end.

(** [s.trim()]. *)
Definition trim (s : jsstring) : jsstring := trimEnd (trimStart s).

(** A value read from the argument of [getElementType]: a string,
    another truthy value, or a falsy value that is not a string
    (undefined, null, 0, false, NaN). *)
Inductive member : Type :=
| Text (s : jsstring)
| OtherTruthy
| OtherFalsy.

Definition truthyMember (m : member) : bool :=
  match m with
  | Text [] => false
  | Text (_ :: _) => true
  | OtherTruthy => true
  | OtherFalsy => false
  end.

(** What [getElementType] reads of a truthy argument:
    [properties.type?.value] and [properties.constructor?.name]. *)
Record Labelled : Type := mkLabelled {
  typeValue : member;
  constructorName : member
}.

(** [properties.type?.value || properties.constructor?.name || "IFC Element"]. *)
Definition typeName (properties : Labelled) : member :=
  if truthyMember (typeValue properties) then typeValue properties
  else if truthyMember (constructorName properties)
       then constructorName properties
       else Text (unitsOf "IFC Element").

(** [getElementType properties]; [None] is a falsy argument. A
    truthy name that is not a string has no [replace] method, and
    the call throws. *)
Definition getElementType (properties : option Labelled) : fetch jsstring :=
  match properties with
  | None => Ok (unitsOf "Unknown")
  | Some props =>
      match typeName props with
      | Text type => Ok (trim (spaceCapitals (stripIfc type)))
      | _ => Throw
      end
  end.

(** The string without its white space. *)
Definition withoutWhiteSpace (s : jsstring) : jsstring :=
  List.filter (fun u => negb (isWhiteSpace u)) s.

(** ** Fit to view on a double middle click *)

Definition DOUBLE_CLICK_DELAY : Z := 300.

(** The [mousedown] listener of [setupFitToView]: from
    [lastMiddleClickTime], the button and [Date.now()], the new
    [lastMiddleClickTime] and whether [fitCameraToModel] is called. *)
Definition onMouseDown (lastMiddleClickTime button currentTime : Z)
    : Z * bool :=
  if button =? 1 then
    let timeSinceLastClick := currentTime - lastMiddleClickTime in
    if timeSinceLastClick <? DOUBLE_CLICK_DELAY then (0, true)
    else (currentTime, false)
  else (lastMiddleClickTime, false).

(** A run of [mousedown] events, each a button and a time: which of
    them fit the camera. *)
Fixpoint mouseDowns (lastMiddleClickTime : Z) (evs : list (Z * Z))
    : list bool :=
  match evs with
  | [] => []
  | (button, currentTime) :: evs =>
      let '(last, fit) := onMouseDown lastMiddleClickTime button currentTime in
      fit :: mouseDowns last evs
  end.

(** ** Selection *)

Section Selection.
Context {num : Type} `{Float num}.
Variable loader : IFCLoader num.

(** The [onObjectSelected] handler installed by [main.ts], as far as
    it acts on the manager: the properties panel is left out. *)
Definition onObjectSelected (st : State) (object : option (Object3D num))
    : State :=
  match object ≫= asMesh with
  | None => removeHighlight loader st
  | Some mesh =>
      match expressID mesh with
      | Some eid => highlightElement loader st (default 0 (modelID mesh)) eid
      | None => st
      end
  end.

(** The viewer: the scene manager's [selectedObject] and the IFC
    manager. *)
Record Viewer : Type := mkViewer {
  selectedObject : option (Object3D num);
  manager : State (num := num)
}.

Definition deselectObject (v : Viewer) : Viewer :=
  mkViewer None (onObjectSelected (manager v) None).

Definition selectObject (v : Viewer) (object : Object3D num) : Viewer :=
  let v := deselectObject v in
  mkViewer (Some object) (onObjectSelected (manager v) (Some object)).
End Selection.

(** ** What a run of events holds *)

(** The arguments of the [onProgress] calls among the events. *)
Definition progressOf (es : list Event) : list LoadingProgress :=
  omap (fun e => match e with OnProgress p => Some p | _ => None end) es.

Definition isRemoval (e : Event) : bool :=
  match e with RemoveSubsetCall _ => true | _ => false end.

Definition isDisposeGeometry (e : Event) : bool :=
  match e with DisposeGeometry => true | _ => false end.

Definition isDisposeMaterial (e : Event) : bool :=
  match e with DisposeMaterial => true | _ => false end.

(** The [onProgress] argument for one download event. *)
Definition downloadReport (ev : ProgressEvent) : option LoadingProgress :=
  if lengthComputable ev then
    let percentage := percentOf (ev_loaded ev) (ev_total ev) in
    Some (mkLoadingProgress (ev_loaded ev) (ev_total ev) percentage
            (if lessThan percentage 100 then "Downloading..."
             else "Processing geometry..."))
  else None.

(** The scene holds the current model and nothing else of the
    manager's. *)
Definition sceneTracksModel {num : Type} `{Float num}
    (st : State (num := num)) : Prop :=
  scene st = match currentModel st with
             | Some model => [modelUid model]
             | None => []
             end.

(** What the rule loops look for, as tests on the fetched sets. *)
Definition psetMissing (propertySets : PsetList) (reqPset : string) : bool :=
  match findPset propertySets reqPset with
  | Ok None => true
  | _ => false
  end.

Definition propertiesViolated (propertySets : PsetList)
    (entry : string * list string) : bool :=
  match findPset propertySets entry.1 with
  | Ok (Some foundPset) =>
      match rec_HasProperties foundPset with
      | Some hasProperties =>
          negb (forallb (fun p => existsb (nameIs p) hasProperties) entry.2)
      | None => true
      end
  | _ => false
  end.

Definition ruleViolated (propertySets : PsetList) (rule : ValidationRule)
    : bool :=
  existsb (psetMissing propertySets) (requiredPsets rule)
  || existsb (propertiesViolated propertySets) (requiredProperties rule).

(** Everything the findings list is backed by a rule of [rules] and
    by the fetched sets: a listed set is required and absent; a listed
    property is required of a set that was found and does not hold
    it. *)
Definition justified (propertySets : PsetList) (rules : list ValidationRule)
    (f : Findings) : Prop :=
  (forall n, n ∈ f_missingPsets f ->
     findPset propertySets n = Ok None
     /\ exists rule, rule ∈ rules /\ n ∈ requiredPsets rule)
  /\ (forall n l p, f_missingProperties f !! n = Some l -> p ∈ l ->
        exists rule props ps,
          rule ∈ rules
          /\ (n, props) ∈ requiredProperties rule
          /\ p ∈ props
          /\ findPset propertySets n = Ok (Some ps)
          /\ (forall hs, rec_HasProperties ps = Some hs ->
                existsb (nameIs p) hs = false)).

(** [s] is the full record of an association of [assocs] that the
    engine types as a property set or a quantity set. *)
Definition fromAssociation {num : Type} `{Float num} (loader : IFCLoader num)
    (mid : Z) (assocs : list jsval) (s : IfcRecord) : Prop :=
  exists a ap,
    a ∈ assocs
    /\ getItemProperties loader mid a = Ok ap
    /\ (strictEqStr (rec_type ap) "IFCPROPERTYSET"
        || strictEqStr (rec_type ap) "IFCELEMENTQUANTITY") = true
    /\ getItemProperties loader mid (rec_expressID ap) = Ok s.

(** [m] is the record of an association of [assocs] that is typed as
    a material or carries a name. *)
Definition materialOf {num : Type} `{Float num} (loader : IFCLoader num)
    (mid : Z) (assocs : list jsval) (m : IfcRecord) : Prop :=
  exists a,
    a ∈ assocs
    /\ getItemProperties loader mid a = Ok m
    /\ (strictEqStr (rec_type m) "IFCMATERIAL" = true \/ is_Some (rec_Name m)).

(** What of a mesh does not depend on where it stands. *)
Definition meshCore {num : Type} `{Float num} (m : Mesh num)
    : option Z * option Z * option (BufferGeometry num) * option (list Material) :=
  (expressID m, modelID m, geometry m, material m).

(** The vertices of a mesh, if it has a geometry. *)
Definition vertices {num : Type} `{Float num} (m : Mesh num)
    : option (list (Vector3 num)) :=
  position <$> geometry m.

(** More sample data: a mesh with the triangle as geometry, alone in
    a model. *)
Module Samples.
Definition solidMesh : Mesh Z :=
  mkMesh (Some 2) None (Some Demo.triangle)
         (Some [mkMaterial MeshStandardMaterial false;
                mkMaterial MeshBasicMaterial false])
         Demo.identity.

Definition solidModel : Model Z :=
  mkModel 21 (Obj Demo.identity KGroup [Obj Demo.identity (KMesh solidMesh) []])
          (mkVector3 0 0 0) None.

(** An engine serving [solidModel], whose subsets are the triangle in
    the original coordinates. *)
Definition solidLoader : IFCLoader Z :=
  mkIFCLoader Z _ (Ok tt)
    (fun _ => ([mkProgressEvent true 50 100; mkProgressEvent false 0 0],
               Ok solidModel))
    (fun _ _ => Ok Demo.wallRecord)
    (fun _ _ => Ok (Some [Demo.emptyWallCommon]))
    (fun _ _ => Ok Demo.subsetMesh)
    (fun _ => Ok tt).

(** An engine whose download fails and whose subsets cannot be
    built. *)
Definition brokenLoader : IFCLoader Z :=
  mkIFCLoader Z _ (Ok tt)
    (fun _ => ([mkProgressEvent true 10 100], Throw))
    (fun _ _ => Throw)
    (fun _ _ => Throw)
    (fun _ _ => Throw)
    (fun _ => Ok tt).

Definition viewingSolid : State (num := Z) :=
  mkState [21] (Some solidModel) None [].

(** An element with two associations: a property set and a
    material. *)
Definition doorRecord : IfcRecord :=
  mkIfcRecord (JNum 1) JUndefined (Some "IfcDoor") (Some (JStr "Door-01"))
              (Some [JNum 7; JNum 8]) None.

Definition doorCommon : IfcRecord :=
  mkIfcRecord (JNum 7) (JStr "IFCPROPERTYSET") (Some "Object")
              (Some (JStr "Pset_DoorCommon")) None (Some []).

Definition oak : IfcRecord :=
  mkIfcRecord (JNum 8) (JStr "IFCMATERIAL") (Some "Object") None None None.

Definition doorItems (id : jsval) : fetch IfcRecord :=
  match id with
  | JNum 1 => Ok doorRecord
  | JNum 7 => Ok doorCommon
  | JNum 8 => Ok oak
  | _ => Throw
  end.

(** An engine that returns no property set for the door, which are to
    be found through the associations. *)
Definition doorLoader : IFCLoader Z :=
  mkIFCLoader Z _ (Ok tt)
    (fun _ => ([], Throw))
    (fun _ id => doorItems id)
    (fun _ _ => Ok (Some []))
    (fun _ _ => Throw)
    (fun _ => Ok tt).

(** The same engine answering null to the property-set request. *)
Definition nullSetsLoader : IFCLoader Z :=
  mkIFCLoader Z _ (Ok tt)
    (fun _ => ([], Throw))
    (fun _ id => doorItems id)
    (fun _ _ => Ok None)
    (fun _ _ => Throw)
    (fun _ => Ok tt).

Definition doorMesh : Mesh Z := mkMesh (Some 1) None None None Demo.identity.

(** Four hundred walls under one root. *)
Definition wallHall : Model Z :=
  mkModel 15 (Obj Demo.identity KGroup
                  (replicate 400 (Obj Demo.identity (KMesh Demo.wallMesh) [])))
          (mkVector3 0 0 0) None.
Definition viewingHall : State (num := Z) :=
  mkState [15] (Some wallHall) None [].
End Samples.

(** * Properties *)

(** ** Validation runs *)

Section ValidationRunFacts.
Context {num : Type} `{Float num}.
Variable loader : IFCLoader num.

Lemma pow2_pos (e : Z) : (0 < pow2 e)%Q.
Proof. apply Qpower_0_lt. reflexivity. Qed.

Lemma pow2_plus (a b : Z) : (pow2 (a + b) == pow2 a * pow2 b)%Q.
Proof. apply Qpower_plus. discriminate. Qed.

Lemma pow2_le (a b : Z) : a <= b -> (pow2 a <= pow2 b)%Q.
Proof. intros Hab. apply Qpower_le_compat_l; [done|]. discriminate. Qed.

Lemma pow2_Z (n : Z) : 0 <= n -> (inject_Z (2 ^ n) == pow2 n)%Q.
Proof. intros Hn. unfold pow2. by rewrite Zpower_Qpower. Qed.

Lemma pow2_succ (a : Z) : (pow2 (a + 1) == 2 * pow2 a)%Q.
Proof. rewrite pow2_plus. change (pow2 1) with 2%Q. ring. Qed.

Lemma log2_bounds (n : Z) :
  0 < n ->
  (pow2 (Z.log2 n) <= inject_Z n)%Q /\ (inject_Z n < 2 * pow2 (Z.log2 n))%Q.
Proof.
  intros Hn. destruct (Z.log2_spec n Hn) as [Hlo Hhi].
  pose proof (Z.log2_nonneg n) as Hnn.
  rewrite <- pow2_succ, <- !pow2_Z by lia.
  rewrite <- Zle_Qle, <- Zlt_Qlt. replace (Z.log2 n + 1) with (Z.succ (Z.log2 n)) by lia.
  done.
Qed.

Lemma ilog2_spec (x : Q) :
  (0 < x)%Q -> (pow2 (ilog2 x) <= x)%Q /\ (x < pow2 (ilog2 x + 1))%Q.
Proof.
  intros Hx. destruct x as [n d].
  assert (Hn : 0 < n) by (unfold Qlt in Hx; cbn in Hx; lia).
  destruct (log2_bounds n Hn) as [HnL HnU].
  destruct (log2_bounds (Zpos d) eq_refl) as [HdL HdU].
  unfold ilog2. cbn [Qnum Qden].
  set (ln := Z.log2 n) in *. set (ld := Z.log2 (Zpos d)) in *.
  assert (HP : (pow2 (ln - ld) * pow2 ld == pow2 ln)%Q).
  { rewrite <- pow2_plus. by replace (ln - ld + ld) with ln by lia. }
  assert (Hxd : ((n # d) * inject_Z (Zpos d) == inject_Z n)%Q).
  { rewrite Qmake_Qdiv. field. discriminate. }
  pose proof (pow2_pos (ln - ld)) as HPpos.
  pose proof (pow2_pos ld) as HBpos.
  assert (HD : (0 < inject_Z (Zpos d))%Q) by reflexivity.
  destruct (Qle_bool (pow2 (ln - ld)) (n # d)) eqn:Hb.
  - apply Qle_bool_iff in Hb. split; [done|].
    rewrite pow2_succ.
    set (X := (n # d)%Q) in *. set (D := inject_Z (Zpos d)) in *.
    set (N := inject_Z n) in *. set (P := pow2 (ln - ld)) in *.
    set (A := pow2 ln) in *. set (B := pow2 ld) in *.
    clearbody X D N P A B. nra.
  - assert (Hlt : ((n # d) < pow2 (ln - ld))%Q).
    { apply Qnot_le_lt. intros Hle. apply Qle_bool_iff in Hle. congruence. }
    replace (ln - ld - 1 + 1) with (ln - ld) by lia. split; [|done].
    assert (HP' : (2 * pow2 (ln - ld - 1) == pow2 (ln - ld))%Q).
    { rewrite <- pow2_succ. by replace (ln - ld - 1 + 1) with (ln - ld) by lia. }
    pose proof (pow2_pos (ln - ld - 1)) as HP'pos.
    set (X := (n # d)%Q) in *. set (D := inject_Z (Zpos d)) in *.
    set (N := inject_Z n) in *. set (P := pow2 (ln - ld)) in *.
    set (P' := pow2 (ln - ld - 1)) in *.
    set (A := pow2 ln) in *. set (B := pow2 ld) in *.
    clearbody X D N P P' A B. nra.
Qed.

Lemma roundHalfEven_bounds (u : Q) :
  Qfloor u <= roundHalfEven u <= Qfloor u + 1.
Proof.
  unfold roundHalfEven.
  destruct (_ ?= _)%Q; [destruct (Z.even _)|..]; lia.
Qed.

Lemma roundHalfEven_mono (u v : Q) :
  (u <= v)%Q -> roundHalfEven u <= roundHalfEven v.
Proof.
  intros Huv. pose proof (Qfloor_resp_le u v Huv) as Hfl.
  pose proof (roundHalfEven_bounds u) as Hu.
  pose proof (roundHalfEven_bounds v) as Hv.
  destruct (decide (Qfloor u = Qfloor v)) as [Heq|Hne]; [|lia].
  clear Hu Hv Hfl. unfold roundHalfEven. rewrite <- Heq.
  destruct (Qcompare_spec (u - inject_Z (Qfloor u)) (1 # 2)) as [Hcu|Hcu|Hcu];
    destruct (Qcompare_spec (v - inject_Z (Qfloor u)) (1 # 2)) as [Hcv|Hcv|Hcv];
    try (destruct (Z.even (Qfloor u))); try lia; exfalso; lra.
Qed.

Lemma roundHalfEven_Z (k : Z) : roundHalfEven (inject_Z k) = k.
Proof.
  unfold roundHalfEven. rewrite Qfloor_Z.
  destruct (Qcompare_spec (inject_Z k - inject_Z k) (1 # 2)) as [Hc|Hc|Hc];
    [exfalso; lra|done|exfalso; lra].
Qed.

Lemma ilog2_mono (x y : Q) : (0 < x)%Q -> (x <= y)%Q -> ilog2 x <= ilog2 y.
Proof.
  intros Hx Hxy.
  destruct (ilog2_spec x Hx) as [Hlo _].
  destruct (ilog2_spec y) as [_ Hhi]; [lra|].
  assert (Hlt : ilog2 x < ilog2 y + 1); [|lia].
  apply (Qpower_lt_compat_l_inv 2); [|reflexivity].
  change (pow2 (ilog2 x) < pow2 (ilog2 y + 1))%Q. lra.
Qed.

(** The significand of a positive number lies between 2^52 and 2^53. *)
Lemma significand_bounds (x : Q) :
  (0 < x)%Q ->
  (inject_Z (2 ^ 52) <= x / ulp x)%Q /\ (x / ulp x <= inject_Z (2 ^ 53))%Q.
Proof.
  intros Hx. destruct (ilog2_spec x Hx) as [Hlo Hhi].
  pose proof (pow2_pos (ilog2 x - 52)) as Hpos. unfold ulp.
  assert (H52 : (pow2 (ilog2 x) == inject_Z (2 ^ 52) * pow2 (ilog2 x - 52))%Q).
  { rewrite pow2_Z by done. rewrite <- pow2_plus.
    by replace (52 + (ilog2 x - 52)) with (ilog2 x) by lia. }
  assert (H53 : (pow2 (ilog2 x + 1) == inject_Z (2 ^ 53) * pow2 (ilog2 x - 52))%Q).
  { rewrite pow2_Z by done. rewrite <- pow2_plus.
    by replace (53 + (ilog2 x - 52)) with (ilog2 x + 1) by lia. }
  set (s := pow2 (ilog2 x - 52)) in *.
  assert (Hq : (x / s * s == x)%Q) by (field; lra).
  set (q := (x / s)%Q) in *.
  set (lo := inject_Z (2 ^ 52)) in *. set (hi := inject_Z (2 ^ 53)) in *.
  set (A := pow2 (ilog2 x)) in *. set (B := pow2 (ilog2 x + 1)) in *.
  clearbody s q lo hi A B. split; nra.
Qed.

Lemma roundPositive_bounds (x : Q) :
  (0 < x)%Q ->
  (pow2 (ilog2 x) <= roundPositive x)%Q
  /\ (roundPositive x <= pow2 (ilog2 x + 1))%Q.
Proof.
  intros Hx. destruct (significand_bounds x Hx) as [Hlo Hhi].
  apply roundHalfEven_mono in Hlo, Hhi. rewrite roundHalfEven_Z in Hlo, Hhi.
  unfold roundPositive.
  set (m := roundHalfEven (x / ulp x)) in *. clearbody m.
  pose proof (pow2_pos (ilog2 x - 52)) as Hpos. unfold ulp.
  assert (H52 : (pow2 (ilog2 x) == inject_Z (2 ^ 52) * pow2 (ilog2 x - 52))%Q).
  { rewrite pow2_Z by done. rewrite <- pow2_plus.
    by replace (52 + (ilog2 x - 52)) with (ilog2 x) by lia. }
  assert (H53 : (pow2 (ilog2 x + 1) == inject_Z (2 ^ 53) * pow2 (ilog2 x - 52))%Q).
  { rewrite pow2_Z by done. rewrite <- pow2_plus.
    by replace (53 + (ilog2 x - 52)) with (ilog2 x + 1) by lia. }
  rewrite H52, H53. rewrite Zle_Qle in Hlo, Hhi.
  set (s := pow2 (ilog2 x - 52)) in *.
  set (lo := inject_Z (2 ^ 52)) in *. set (hi := inject_Z (2 ^ 53)) in *.
  set (M := inject_Z m) in *.
  clearbody s lo hi M. split; nra.
Qed.

Lemma roundPositive_mono (x y : Q) :
  (0 < x)%Q -> (x <= y)%Q -> (roundPositive x <= roundPositive y)%Q.
Proof.
  intros Hx Hxy. assert (Hy : (0 < y)%Q) by lra.
  pose proof (ilog2_mono x y Hx Hxy) as He.
  destruct (decide (ilog2 x = ilog2 y)) as [Heq|Hne].
  - unfold roundPositive, ulp. rewrite <- Heq.
    pose proof (pow2_pos (ilog2 x - 52)) as Hpos.
    set (s := pow2 (ilog2 x - 52)) in *.
    assert (Hq : (x / s <= y / s)%Q).
    { apply Qmult_le_compat_r; [done|]. apply Qlt_le_weak, Qinv_lt_0_compat, Hpos. }
    apply roundHalfEven_mono in Hq. rewrite Zle_Qle in Hq.
    apply Qmult_le_compat_r; [done|lra].
  - destruct (roundPositive_bounds x Hx) as [_ Hhi].
    destruct (roundPositive_bounds y Hy) as [Hlo _].
    assert (Hp : (pow2 (ilog2 x + 1) <= pow2 (ilog2 y))%Q) by (apply pow2_le; lia).
    lra.
Qed.

Lemma roundPositive_pos (x : Q) : (0 < x)%Q -> (0 < roundPositive x)%Q.
Proof.
  intros Hx. destruct (roundPositive_bounds x Hx) as [Hlo _].
  pose proof (pow2_pos (ilog2 x)). lra.
Qed.

Lemma sign_of_numerator (x : Q) :
  match Qnum x with
  | Z0 => (x == 0)%Q
  | Zpos _ => (0 < x)%Q
  | Zneg _ => (x < 0)%Q
  end.
Proof. destruct x as [[|n|n] d]; reflexivity. Qed.

Lemma double_mono (x y : Q) : (x <= y)%Q -> (double x <= double y)%Q.
Proof.
  intros Hxy. unfold double.
  pose proof (sign_of_numerator x) as Hsx. pose proof (sign_of_numerator y) as Hsy.
  destruct (Qnum x) as [|n|n]; destruct (Qnum y) as [|m|m];
    try (exfalso; lra); try lra.
  - pose proof (roundPositive_pos y Hsy). lra.
  - by apply roundPositive_mono.
  - pose proof (roundPositive_pos (- x)) as Hp. lapply Hp; [lra|lra].
  - pose proof (roundPositive_pos (- x)) as Hp.
    pose proof (roundPositive_pos y Hsy). lapply Hp; [lra|lra].
  - pose proof (roundPositive_mono (- y) (- x)) as Hm.
    lapply Hm; [|lra]. intros Hm'. lapply Hm'; [lra|lra].
Qed.

Lemma double_comp (x y : Q) : (x == y)%Q -> (double x == double y)%Q.
Proof.
  intros Hxy. apply Qle_antisym; apply double_mono; lra.
Qed.

Lemma mathRound_mono (x y : Q) : (x <= y)%Q -> mathRound x <= mathRound y.
Proof. intros Hxy. apply Qfloor_resp_le. lra. Qed.

Lemma roundPercent_mono (t a b : Z) :
  0 < t -> a <= b -> roundPercent a t <= roundPercent b t.
Proof.
  intros Ht Hab. unfold roundPercent.
  apply mathRound_mono, double_mono.
  apply Qmult_le_compat_r; [|done].
  apply double_mono.
  apply Qmult_le_compat_r; [by rewrite <- Zle_Qle|].
  apply Qlt_le_weak, Qinv_lt_0_compat.
  change 0%Q with (inject_Z 0). by rewrite <- Zlt_Qlt.
Qed.

Lemma roundPercent_full (t : Z) : 0 < t -> roundPercent t t = 100.
Proof.
  intros Ht. unfold roundPercent, mathRound.
  assert (H1 : (double (inject_Z t / inject_Z t) == 1)%Q).
  { rewrite (double_comp _ 1); [reflexivity|].
    field. intros H0. rewrite Zlt_Qlt in Ht.
    change (inject_Z 0) with 0%Q in Ht. lra. }
  assert (H2 : (double (double (inject_Z t / inject_Z t) * 100) == 100)%Q).
  { rewrite (double_comp _ 100); [reflexivity|]. rewrite H1. reflexivity. }
  rewrite (Qfloor_comp _ (100 + (1 # 2))); [reflexivity|]. by rewrite H2.
Qed.

Lemma roundPercent_zero (t : Z) : roundPercent 0 t = 0.
Proof.
  unfold roundPercent, mathRound.
  assert (H1 : (double (double (inject_Z 0 / inject_Z t) * 100) == 0)%Q).
  { rewrite (double_comp _ 0); [reflexivity|].
    rewrite (double_comp _ 0); [reflexivity|]. unfold Qdiv. ring. }
  rewrite (Qfloor_comp _ (0 + (1 # 2))); [reflexivity|]. by rewrite H1.
Qed.

Lemma roundPercent_nonneg (t a : Z) : 0 < t -> 0 <= a -> 0 <= roundPercent a t.
Proof.
  intros Ht Ha. rewrite <- (roundPercent_zero t). by apply roundPercent_mono.
Qed.

(** The rounding of [double] against the IEEE 754 operations of the
    standard library: the two give the same product for every count
    out of every total up to 60, for every count out of 400, and at
    the ends of the range of a counter. *)
Example double_agrees_with_ieee :
  forallb (fun b => forallb (fun a => agrees a b) (upTo b))
          (map Z.succ (upTo 59)) = true
  /\ forallb (fun a => agrees a 400) (upTo 400) = true
  /\ agrees 1 4294967295 = true
  /\ agrees 4294967294 4294967295 = true
  /\ agrees 9007199254740991 9007199254740990 = true.
Proof. split_and!; vm_compute; reflexivity. Qed.

(** The loop counts the elements and reports at the multiples of
    ten, whatever the results are. *)
Lemma validateStep_fold rules total (meshes : list (Mesh num)) :
  forall results processed calls,
    let '(_, processed', calls') :=
      fold_left (validateStep loader rules true total) meshes
                (results, processed, calls) in
    processed' = processed + Z.of_nat (length meshes)
    /\ calls' =
         calls ++ map (fun p => roundPercent p total)
                      (List.filter (fun p => p mod 10 =? 0)
                                   (seqZ (processed + 1) (Z.of_nat (length meshes)))).
Proof.
  induction meshes as [|mesh meshes IH]; intros results processed calls.
  - simpl. split; [lia | by rewrite app_nil_r].
  - cbn [fold_left validateStep length].
    set (results1 := match validateElement loader mesh rules with
                     | Some result => _ | None => _ end).
    cbn [andb].
    specialize (IH results1 (processed + 1)
      (if (processed + 1) mod 10 =? 0
       then calls ++ [roundPercent (processed + 1) total] else calls)).
    destruct (fold_left _ meshes _) as [[res' proc'] calls'].
    destruct IH as [-> ->]. split; [lia|].
    rewrite (seqZ_cons (processed + 1)) by lia.
    replace (Z.pred (Z.of_nat (S (length meshes))))
      with (Z.of_nat (length meshes)) by lia.
    replace (Z.succ (processed + 1)) with (processed + 1 + 1) by lia.
    cbn [List.filter].
    destruct ((processed + 1) mod 10 =? 0); cbn [map];
      by rewrite <- ?app_assoc.
Qed.

Lemma seqZ_sorted (n : nat) :
  forall m, StronglySorted Z.le (seqZ m (Z.of_nat n)).
Proof.
  induction n as [|n IH]; intros m.
  - rewrite seqZ_nil by lia. constructor.
  - rewrite seqZ_cons by lia.
    replace (Z.pred (Z.of_nat (S n))) with (Z.of_nat n) by lia.
    constructor; [apply IH|].
    apply Forall_seqZ. lia.
Qed.

Lemma filter_sorted {A} (R : relation A) (f : A -> bool) (l : list A) :
  StronglySorted R l -> StronglySorted R (List.filter f l).
Proof.
  induction 1 as [|x l Hl IH Hx]; cbn [List.filter]; [constructor|].
  destruct (f x); [|done].
  constructor; [done|].
  apply Forall_forall. intros y Hy.
  apply list_elem_of_In, filter_In in Hy as [Hy _].
  rewrite Forall_forall in Hx. apply Hx. by apply list_elem_of_In.
Qed.

Lemma reportPoints_range (n p : Z) :
  p ∈ reportPoints n -> 1 <= p <= n /\ p mod 10 = 0.
Proof.
  unfold reportPoints. intros Hp.
  apply list_elem_of_In, filter_In in Hp as [Hp Hmod].
  apply list_elem_of_In, elem_of_seqZ in Hp. lia.
Qed.

Lemma validateStep_results rules onProgress total (meshes : list (Mesh num)) :
  forall results processed calls,
    (fold_left (validateStep loader rules onProgress total) meshes
               (results, processed, calls)).1.1
    = results ++ omap (failure loader rules) meshes.
Proof.
  induction meshes as [|mesh meshes IH]; intros results processed calls.
  - simpl. by rewrite app_nil_r.
  - cbn [fold_left validateStep]. rewrite IH. csimpl. unfold failure at 2.
    destruct (validateElement loader mesh rules) as [r|]; [|done].
    destruct (passed r); [done|]. by rewrite <- app_assoc.
Qed.

(** The list a run resolves with holds, in element order, the
    failing result of each indexed element that has one: one entry
    at most per element, all with [passed = false]. *)
Lemma validateModel_results (st : State) rules onProgress model :
  getCurrentModel st = Some model ->
  settled (validateModel loader st rules onProgress)
  = Resolved (omap (failure loader rules) (indexedMeshes model)).
Proof.
  intros Hm. unfold validateModel. rewrite Hm.
  pose proof (validateStep_results rules onProgress
                (Z.of_nat (length (indexedMeshes model)))
                (indexedMeshes model) [] 0 []) as Hres.
  destruct (fold_left _ _ _) as [[results processed] calls].
  cbn in Hres. by rewrite Hres.
Qed.

Lemma failure_not_passed rules mesh r :
  failure loader rules mesh = Some r -> passed r = false.
Proof.
  unfold failure. destruct (validateElement loader mesh rules) as [r'|]; [|done].
  destruct (passed r') eqn:Hp; [done|]. by intros [= <-].
Qed.

(** C1 (as amended). With no model loaded, [validateModel] resolves
    with the empty list: it writes one warning to the console and
    never calls [onProgress]. *)
Theorem validateModel_without_model (st : State) rules onProgress :
  getCurrentModel st = None ->
  validateModel loader st rules onProgress
  = mkRun (Resolved []) [] [ConsoleWarn "No model loaded to validate."].
Proof. intros Hm. unfold validateModel. by rewrite Hm. Qed.

(** C8. Over the [n] indexed elements of a loaded model, the values
    passed to [onProgress] are the rounded percentages at the
    element counts 10, 20, ... up to [n], followed by 100; they
    never decrease, stay between 0 and 100, and end with 100. The
    percentage at [p] elements is [Math.round ((p / n) * 100)] as
    doubles compute it, the quotient and the product each rounded to
    the nearest double. *)
Theorem validateModel_progress (st : State) rules model :
  getCurrentModel st = Some model ->
  let n := Z.of_nat (length (indexedMeshes model)) in
  let calls := progressCalls (validateModel loader st rules true) in
  calls = map (fun p => roundPercent p n) (reportPoints n) ++ [100]
  /\ StronglySorted Z.le calls
  /\ Forall (fun c => 0 <= c <= 100) calls
  /\ last calls = Some 100.
Proof.
  intros Hm n calls.
  assert (Hcalls : calls
            = map (fun p => roundPercent p n) (reportPoints n) ++ [100]).
  { subst calls. unfold validateModel. rewrite Hm.
    pose proof (validateStep_fold rules n (indexedMeshes model) [] 0 [])
      as Hfold.
    fold n. destruct (fold_left _ _ _) as [[results processed] cs].
    destruct Hfold as [_ ->]. done. }
  assert (Hrange : forall c,
            c ∈ map (fun p => roundPercent p n) (reportPoints n) ->
            0 <= c <= 100).
  { intros c Hc. apply list_elem_of_In, in_map_iff in Hc as (p & <- & Hp).
    apply list_elem_of_In, reportPoints_range in Hp as [Hp _].
    assert (0 < n) by lia. split.
    - apply roundPercent_nonneg; lia.
    - rewrite <- (roundPercent_full n) by done.
      apply roundPercent_mono; lia. }
  split; [done|]. rewrite Hcalls. split; [|split].
  - apply StronglySorted_app_2.
    + intros x1 x2 Hx1 ->%list_elem_of_singleton.
      by apply Hrange.
    + destruct (decide (0 < n)) as [Hn|Hn].
      * apply (StronglySorted_fmap _ Z.le Z.le).
        { intros x y. by apply roundPercent_mono. }
        apply filter_sorted.
        rewrite <- (Z2Nat.id n) by lia. apply seqZ_sorted.
      * unfold reportPoints. rewrite seqZ_nil by lia. constructor.
    + repeat constructor.
  - apply Forall_app. split.
    + by apply Forall_forall.
    + repeat constructor; lia.
  - by rewrite last_snoc.
Qed.
End ValidationRunFacts.

(** C1: a run without a model resolves; it does not reject with
    [NoModelLoaded]. *)
Lemma validateModel_without_model_resolves :
  getCurrentModel Demo.idle = None
  /\ settled (validateModel Demo.wallLoader Demo.idle Demo.defaultRules true)
     = Resolved []
  /\ settled (validateModel Demo.wallLoader Demo.idle Demo.defaultRules true)
     <> Rejected NoModelLoaded.
Proof. repeat split. discriminate. Qed.

(** The run without a model, on the sample engine. *)
Lemma validateModel_without_model_witness :
  validateModel Demo.wallLoader Demo.idle Demo.defaultRules true
  = mkRun (Resolved []) [] [ConsoleWarn "No model loaded to validate."].
Proof.
  apply (validateModel_without_model Demo.wallLoader Demo.idle
           Demo.defaultRules true).
  reflexivity.
Defined.

(** The progress calls over the row of twenty-five walls. *)
Lemma validateModel_progress_witness :
  progressCalls (validateModel Demo.wallLoader Demo.viewingRow
                   Demo.defaultRules true) = [40; 80; 100].
Proof.
  exact (proj1 (validateModel_progress Demo.wallLoader Demo.viewingRow
                  Demo.defaultRules Demo.wallRow eq_refl)).
Defined.

(** Twenty-five indexed elements: the callback sees 40, 80 and 100. *)
Example progress_of_25_elements :
  length (indexedMeshes Demo.wallRow) = 25%nat
  /\ progressCalls (validateModel Demo.wallLoader Demo.viewingRow
                      Demo.defaultRules true) = [40; 80; 100].
Proof. split; vm_compute; reflexivity. Qed.

(** Four hundred indexed elements: after 230 of them the quotient is
    the double below 0.575, its product with 100 the double below
    57.5, and the callback sees 57. The last two calls carry 100. *)
Example progress_of_400_elements :
  length (indexedMeshes Samples.wallHall) = 400%nat
  /\ valueOf (ieeePercent 230 400)
     = Some (8092405580431359 # 140737488355328)%Q
  /\ roundPercent 230 400 = 57
  /\ progressCalls (validateModel Demo.wallLoader Samples.viewingHall
                      Demo.defaultRules true)
     = [3; 5; 8; 10; 13; 15; 18; 20; 23; 25; 28; 30; 33; 35; 38; 40; 43; 45;
        48; 50; 53; 55; 57; 60; 63; 65; 68; 70; 73; 75; 78; 80; 83; 85; 88;
        90; 93; 95; 98; 100; 100].
Proof. split_and!; vm_compute; reflexivity. Qed.

(** ** The rule loops of [validateElement] *)

Section ForOf.
Context {A B : Type} (body : A -> B -> fetch A).

(** A property kept by every turn holds when the loop ends. *)
Lemma forOf_invariant (P : A -> Prop) (l : list B) :
  forall a a',
    forOf body l a = Ok a' ->
    P a ->
    (forall a b a', b ∈ l -> P a -> body a b = Ok a' -> P a') ->
    P a'.
Proof.
  induction l as [|b l IH]; intros a a' Hrun Ha Hstep; cbn in Hrun.
  - by injection Hrun as <-.
  - destruct (body a b) as [a1|] eqn:Hb; [|done].
    apply (IH a1 a' Hrun).
    + apply (Hstep a b a1); [left|done..].
    + intros a2 b2 a3 Hin. apply Hstep. by right.
Qed.

(** A property established by the turn for [b], and kept afterwards,
    holds when the loop ends. *)
Lemma forOf_reaches (P Q : A -> Prop) (l : list B) (b : B) :
  forall a a',
    forOf body l a = Ok a' ->
    b ∈ l ->
    P a ->
    (forall a x a', P a -> body a x = Ok a' -> P a') ->
    (forall a a', P a -> body a b = Ok a' -> Q a') ->
    (forall a x a', P a -> Q a -> body a x = Ok a' -> Q a') ->
    Q a'.
Proof.
  intros a a' Hrun Hin Ha HP Hb HQ.
  revert a Hrun Ha. induction Hin as [b l|b y l Hin IH]; intros a Hrun Ha;
    cbn in Hrun.
  - destruct (body a b) as [a1|] eqn:Hbody; [|done].
    assert (HPQ : P a1 /\ Q a1) by eauto.
    revert Hrun HPQ. generalize a1. clear Hbody Ha.
    induction l as [|x l IHl]; intros a2 Hrun [HP2 HQ2]; cbn in Hrun.
    + by injection Hrun as <-.
    + destruct (body a2 x) as [a3|] eqn:Hx; [|done].
      apply (IHl a3 Hrun). eauto.
  - destruct (body a y) as [a1|] eqn:Hbody; [|done].
    apply (IH Hb a1 Hrun). eauto.
Qed.
End ForOf.

Section RuleLoops.
Variable propertySets : PsetList.

Lemma elem_of_pushUnique (l : list string) (x y : string) :
  y ∈ pushUnique l x <-> y ∈ l \/ y = x.
Proof.
  unfold pushUnique. case_bool_decide as Hx.
  - split; [by left|]. by intros [?| ->].
  - rewrite elem_of_app, list_elem_of_singleton. tauto.
Qed.

Lemma NoDup_pushUnique (l : list string) (x : string) :
  NoDup l -> NoDup (pushUnique l x).
Proof.
  intros Hl. unfold pushUnique. case_bool_decide as Hx; [done|].
  apply NoDup_app. split_and!; [done| |apply NoDup_singleton].
  intros y Hy ->%list_elem_of_singleton. done.
Qed.

Lemma pushUnique_nonempty (l : list string) (x : string) :
  pushUnique l x <> [].
Proof.
  unfold pushUnique. case_bool_decide as Hx.
  - intros ->. by apply not_elem_of_nil in Hx.
  - by destruct l.
Qed.

Lemma checkPset_consistent f reqPset f' :
  consistent propertySets f ->
  checkPset propertySets f reqPset = Ok f' ->
  consistent propertySets f'.
Proof.
  intros (Hnd & Hmp & Herr). unfold checkPset.
  destruct (findPset propertySets reqPset) as [[ps|]|]; intros [= <-];
    [done|].
  split_and!; cbn; [by apply NoDup_pushUnique|done|done].
Qed.

Lemma checkPset_keeps f reqPset f' n :
  checkPset propertySets f reqPset = Ok f' ->
  n ∈ f_missingPsets f -> n ∈ f_missingPsets f'.
Proof.
  unfold checkPset.
  destruct (findPset propertySets reqPset) as [[ps|]|]; intros [= <-];
    [done|].
  cbn. rewrite elem_of_pushUnique. by left.
Qed.

Lemma checkPset_records f reqPset f' :
  findPset propertySets reqPset = Ok None ->
  checkPset propertySets f reqPset = Ok f' ->
  reqPset ∈ f_missingPsets f'.
Proof.
  unfold checkPset. intros ->. intros [= <-]. cbn.
  rewrite elem_of_pushUnique. by right.
Qed.

Lemma checkProperty_missingPsets hasProperties psetName f propName :
  f_missingPsets (checkProperty hasProperties psetName f propName)
  = f_missingPsets f.
Proof. unfold checkProperty. by destruct (existsb _ _). Qed.

Lemma checkProperty_consistent hasProperties psetName ps f propName :
  findPset propertySets psetName = Ok (Some ps) ->
  consistent propertySets f ->
  consistent propertySets (checkProperty hasProperties psetName f propName).
Proof.
  intros Hfound (Hnd & Hmp & Herr). unfold checkProperty.
  destruct (existsb _ _); [done|].
  split_and!; cbn; [done| |done].
  intros n. destruct (decide (psetName = n)) as [<-|Hne].
  - eauto.
  - rewrite lookup_insert_ne by done. apply Hmp.
Qed.

Lemma checkProperties_fold hasProperties psetName ps reqProps :
  findPset propertySets psetName = Ok (Some ps) ->
  forall f,
    consistent propertySets f ->
    consistent propertySets
      (fold_left (checkProperty hasProperties psetName) reqProps f)
    /\ f_missingPsets
         (fold_left (checkProperty hasProperties psetName) reqProps f)
       = f_missingPsets f.
Proof.
  intros Hfound. induction reqProps as [|p reqProps IH]; intros f Hf;
    cbn [fold_left]; [done|].
  destruct (IH (checkProperty hasProperties psetName f p)) as [Hc Hm].
  { by eapply checkProperty_consistent. }
  split; [done|]. by rewrite Hm, checkProperty_missingPsets.
Qed.

Lemma checkProperties_consistent f entry f' :
  consistent propertySets f ->
  checkProperties propertySets f entry = Ok f' ->
  consistent propertySets f' /\ f_missingPsets f' = f_missingPsets f.
Proof.
  intros Hf. destruct entry as [psetName reqProps]. unfold checkProperties.
  destruct (findPset propertySets psetName) as [[ps|]|] eqn:Hfound;
    [|by intros [= <-]|done].
  destruct (rec_HasProperties ps) as [hasProperties|]; intros [= <-].
  - by eapply checkProperties_fold.
  - destruct Hf as (Hnd & Hmp & Herr). split; [|done].
    split_and!; cbn; [done| |done].
    intros n. destruct (decide (psetName = n)) as [<-|Hne].
    + eauto.
    + rewrite lookup_insert_ne by done. apply Hmp.
Qed.

(** The branch that checks each name keeps every list of missing
    properties free of duplicates. *)
Lemma checkProperty_NoDup hasProperties psetName f propName :
  (forall n l, f_missingProperties f !! n = Some l -> NoDup l) ->
  forall n l,
    f_missingProperties (checkProperty hasProperties psetName f propName) !! n
    = Some l ->
    NoDup l.
Proof.
  intros Hf n l. unfold checkProperty.
  destruct (existsb _ _); [apply Hf|]. cbn.
  destruct (decide (psetName = n)) as [<-|Hne].
  - rewrite lookup_insert_eq. intros [= <-]. apply NoDup_pushUnique.
    destruct (f_missingProperties f !! psetName) as [l0|] eqn:Hl0; cbn.
    + by eapply Hf.
    + constructor.
  - rewrite lookup_insert_ne by done. apply Hf.
Qed.

(** A set found without [HasProperties] gets every required name
    listed. *)
Lemma checkProperties_without_properties f psetName reqProps ps f' :
  findPset propertySets psetName = Ok (Some ps) ->
  rec_HasProperties ps = None ->
  checkProperties propertySets f (psetName, reqProps) = Ok f' ->
  exists l,
    f_missingProperties f' !! psetName = Some l
    /\ (forall p, p ∈ reqProps -> p ∈ l)
    /\ hasError f' = true.
Proof.
  intros Hfound Hnone. unfold checkProperties. rewrite Hfound, Hnone.
  intros [= <-]. cbn. eexists. rewrite lookup_insert_eq.
  split_and!; [done| |done].
  intros p Hp. apply elem_of_app. by right.
Qed.

Lemma checkRule_consistent f rule f' :
  consistent propertySets f ->
  checkRule propertySets f rule = Ok f' ->
  consistent propertySets f'.
Proof.
  intros Hf. unfold checkRule.
  destruct (forOf (checkPset propertySets) (requiredPsets rule) f)
    as [f1|] eqn:Hpsets; [|done].
  intros Hprops.
  assert (Hf1 : consistent propertySets f1).
  { apply (forOf_invariant _ (consistent propertySets) _ _ _ Hpsets Hf).
    intros a b a' _. apply checkPset_consistent. }
  apply (forOf_invariant _ (consistent propertySets) _ _ _ Hprops Hf1).
  intros a b a' _ Ha Hb. by destruct (checkProperties_consistent a b a').
Qed.

Lemma checkRule_keeps f rule f' n :
  consistent propertySets f ->
  checkRule propertySets f rule = Ok f' ->
  n ∈ f_missingPsets f -> n ∈ f_missingPsets f'.
Proof.
  intros Hf. unfold checkRule.
  destruct (forOf (checkPset propertySets) (requiredPsets rule) f)
    as [f1|] eqn:Hpsets; [|done].
  intros Hprops Hn.
  assert (Hf1 : consistent propertySets f1 /\ n ∈ f_missingPsets f1).
  { apply (forOf_invariant _
             (fun a => consistent propertySets a /\ n ∈ f_missingPsets a)
             _ _ _ Hpsets); [done|].
    intros a b a' _ [Ha Hna] Hb. split.
    - by eapply checkPset_consistent.
    - by eapply checkPset_keeps. }
  apply (forOf_invariant _
           (fun a => consistent propertySets a /\ n ∈ f_missingPsets a)
           _ _ _ Hprops Hf1).
  intros a b a' _ [Ha Hna] Hb.
  destruct (checkProperties_consistent a b a' Ha Hb) as [Hc Hm].
  split; [done|]. by rewrite Hm.
Qed.

Lemma checkRule_records f rule f' n :
  consistent propertySets f ->
  n ∈ requiredPsets rule ->
  findPset propertySets n = Ok None ->
  checkRule propertySets f rule = Ok f' ->
  n ∈ f_missingPsets f'.
Proof.
  intros Hf Hn Habsent. unfold checkRule.
  destruct (forOf (checkPset propertySets) (requiredPsets rule) f)
    as [f1|] eqn:Hpsets; [|done].
  intros Hprops.
  assert (Hf1 : consistent propertySets f1 /\ n ∈ f_missingPsets f1).
  { split.
    - apply (forOf_invariant _ (consistent propertySets) _ _ _ Hpsets Hf).
      intros a b a' _. apply checkPset_consistent.
    - apply (forOf_reaches _ (fun _ => True)
               (fun a => n ∈ f_missingPsets a) _ n _ _ Hpsets); try done.
      + intros a a' _. by apply checkPset_records.
      + intros a x a' _ Ha Hx. by eapply checkPset_keeps. }
  apply (forOf_invariant _
           (fun a => consistent propertySets a /\ n ∈ f_missingPsets a)
           _ _ _ Hprops Hf1).
  intros a b a' _ [Ha Hna] Hb.
  destruct (checkProperties_consistent a b a' Ha Hb) as [Hc Hm].
  split; [done|]. by rewrite Hm.
Qed.

Lemma consistent_start :
  consistent propertySets (mkFindings [] ∅ false).
Proof.
  split_and!; cbn; [constructor| |done].
  intros n [x Hx]. by rewrite lookup_empty in Hx.
Qed.

(** The rule loops as a whole. *)
Lemma checkRules_sound rules f rule n :
  forOf (checkRule propertySets) rules (mkFindings [] ∅ false) = Ok f ->
  rule ∈ rules ->
  n ∈ requiredPsets rule ->
  findPset propertySets n = Ok None ->
  consistent propertySets f /\ n ∈ f_missingPsets f.
Proof.
  intros Hrun Hrule Hn Habsent. split.
  - apply (forOf_invariant _ (consistent propertySets) _ _ _ Hrun
             consistent_start).
    intros a b a' _. apply checkRule_consistent.
  - apply (forOf_reaches _ (consistent propertySets)
             (fun a => n ∈ f_missingPsets a) _ rule _ _ Hrun Hrule
             consistent_start).
    + intros a x a'. apply checkRule_consistent.
    + intros a a' Ha. by apply checkRule_records.
    + intros a x a' Ha Hna Hx. by eapply checkRule_keeps.
Qed.
End RuleLoops.

(** ** Results of [validateElement] *)

Section ElementFacts.
Context {num : Type} `{Float num}.
Variable loader : IFCLoader num.

(** C6. When a property set required by an applicable rule is not
    among the element's fetched sets, the element's result lists the
    set's name in [missingPsets], which has no duplicates, and has
    no [missingProperties] entry for that set. *)
Theorem validateElement_missing_pset
    (mesh : Mesh num) rules r psets rule (name : string) :
  validateElement loader mesh rules = Some r ->
  getPropertySets loader (default 0 (modelID mesh)) (jsOfId (expressID mesh))
  = Ok psets ->
  rule ∈ rules ->
  applicable (result_ifcClass r) rule = true ->
  name ∈ requiredPsets rule ->
  findPset psets name = Ok None ->
  name ∈ missingPsets r
  /\ NoDup (missingPsets r)
  /\ missingProperties r !! name = None
  /\ passed r = false.
Proof.
  intros Hr Hpsets Hrule Happ Hname Habsent.
  unfold validateElement in Hr.
  destruct (getItemProperties loader _ _) as [props|]; [|done].
  destruct (if truthy (rec_type props) then _ else _) as [| |t]; try done.
  destruct (List.filter (applicable (toUpperCase t)) rules)
    as [|r0 rs] eqn:Hfilter; [done|].
  rewrite Hpsets in Hr.
  destruct (forOf (checkRule psets) (r0 :: rs) _) as [f|] eqn:Hrun; [|done].
  assert (Hclass : result_ifcClass r = toUpperCase t).
  { by destruct (hasError f); injection Hr as <-. }
  rewrite Hclass in Happ.
  assert (Hin : rule ∈ r0 :: rs).
  { rewrite <- Hfilter. apply list_elem_of_In, filter_In.
    split; [by apply list_elem_of_In|done]. }
  destruct (checkRules_sound psets (r0 :: rs) f rule name Hrun Hin Hname
              Habsent) as [(Hnd & Hmp & Herr) Hlisted].
  rewrite Herr in Hr by (intros Hnil; rewrite Hnil in Hlisted;
                         by apply not_elem_of_nil in Hlisted).
  injection Hr as <-. cbn. split_and!; [done..| |done].
  destruct (f_missingProperties f !! name) as [l|] eqn:Hl; [|done].
  destruct (Hmp name) as [ps Hps]; [by eexists|congruence].
Qed.
End ElementFacts.

(** The wall checked against a rule asking for a set it lacks. *)
Lemma validateElement_missing_pset_witness :
  let r := mkResult (Some 1) 0 "IFCWALLSTANDARDCASE" ["Pset_FireSafety"] ∅
                    false in
  validateElement Demo.wallLoader Demo.wallMesh [Demo.fireRule] = Some r
  /\ "Pset_FireSafety" ∈ missingPsets r
  /\ NoDup (missingPsets r)
  /\ missingProperties r !! "Pset_FireSafety" = None
  /\ passed r = false.
Proof.
  intros r. split; [vm_compute; reflexivity|].
  apply (validateElement_missing_pset Demo.wallLoader Demo.wallMesh
           [Demo.fireRule] r (Some [Demo.emptyWallCommon]) Demo.fireRule).
  - vm_compute. reflexivity.
  - reflexivity.
  - constructor.
  - vm_compute. reflexivity.
  - constructor.
  - vm_compute. reflexivity.
Defined.

(** C7: two applicable rules ask for [LoadBearing] of a set that is
    present without [HasProperties]; the name is listed twice. *)
Lemma validateElement_lists_property_twice :
  validateElement Demo.wallLoader Demo.wallMesh Demo.overlappingRules
  = Some (mkResult (Some 1) 0 "IFCWALLSTANDARDCASE" []
            {[ "Pset_WallCommon" := ["LoadBearing"; "LoadBearing"] ]} false)
  /\ ~ NoDup ["LoadBearing"; "LoadBearing"].
Proof.
  split.
  - vm_compute. reflexivity.
  - intros Hnd. apply NoDup_cons in Hnd as [Hnotin _].
    apply Hnotin. constructor.
Qed.

(** C9: a rule that names a present set without [HasProperties] and
    asks for no property of it makes the element fail with nothing
    listed as missing. *)
Lemma validateModel_failure_without_findings :
  settled (validateModel Demo.wallLoader Demo.viewingWall Demo.presenceRule
             false)
  = Resolved [mkResult (Some 1) 0 "IFCWALLSTANDARDCASE" []
                {[ "Pset_WallCommon" := [] ]} false].
Proof. vm_compute. reflexivity. Qed.

(** ** Property extraction *)

Section ExtractionFacts.
Context {num : Type} `{Float num}.
Variable loader : IFCLoader num.

(** C2 (as amended). [getElementProperties] returns [null] exactly
    when the mesh carries no [expressID], or the fetch of the base
    properties fails, or the fetch of the property sets fails. A
    failure while resolving materials, the type, or the fallback
    sets never makes it return [null]. *)
Theorem getElementProperties_null_iff (mesh : Mesh num) :
  getElementProperties loader mesh = None
  <-> expressID mesh = None
      \/ getItemProperties loader (default 0 (modelID mesh))
           (jsOfId (expressID mesh)) = Throw
      \/ getPropertySets loader (default 0 (modelID mesh))
           (jsOfId (expressID mesh)) = Throw.
Proof.
  unfold getElementProperties.
  destruct (expressID mesh) as [eid|]; cbn [jsOfId]; [|tauto].
  destruct (getItemProperties loader _ _) as [props|]; [|tauto].
  destruct (getPropertySets loader _ _) as [psets|]; [|tauto].
  split; [done|]. intros [?|[?|?]]; done.
Qed.

(** With both fetches answered, the bundle carries the base record
    whatever the later steps do. *)
Lemma getElementProperties_bundle (mesh : Mesh num) eid props psets :
  expressID mesh = Some eid ->
  getItemProperties loader (default 0 (modelID mesh)) (JNum eid) = Ok props ->
  getPropertySets loader (default 0 (modelID mesh)) (JNum eid) = Ok psets ->
  exists b,
    getElementProperties loader mesh = Some b
    /\ properties b = props
    /\ bundle_expressID b = eid
    /\ bundle_modelID b = default 0 (modelID mesh).
Proof.
  intros He Hp Hs. unfold getElementProperties. rewrite He, Hp, Hs.
  by eexists.
Qed.
End ExtractionFacts.

(** C2: the base properties are fetched, the property sets are not,
    and the result is [null]. *)
Lemma getElementProperties_null_on_pset_failure :
  getItemProperties Demo.noPsetsLoader 0 (JNum 1) = Ok Demo.wallRecord
  /\ getPropertySets Demo.noPsetsLoader 0 (JNum 1) = Throw
  /\ getElementProperties Demo.noPsetsLoader Demo.wallMesh = None.
Proof. repeat split. Qed.

(** ** Centering *)

Section CenteringFacts.
Context {num : Type} `{Float num}.

(** Induction over the scene graph. *)
Lemma Object3D_forall_ind (P : Object3D num -> Prop) :
  (forall l k cs, Forall P cs -> P (Obj l k cs)) ->
  forall o, P o.
Proof.
  intros HP. fix IH 1. intros [l k cs]. apply HP.
  induction cs as [|c cs IHcs]; constructor; [apply IH|apply IHcs].
Qed.

Lemma omap_concat_nil {A B} (f : A -> option B) (ls : list (list A)) :
  omap f (concat ls) = [] -> Forall (fun l => omap f l = []) ls.
Proof.
  induction ls as [|l ls IH]; cbn [concat]; intros Hnil; [constructor|].
  rewrite omap_app in Hnil. apply app_eq_nil in Hnil as [Hl Hls].
  constructor; auto.
Qed.

Lemma collectMeshes_nil_inv l k (cs : list (Object3D num)) :
  collectMeshes (Obj l k cs) = [] ->
  (forall m, k <> KMesh m) /\ Forall (fun c => collectMeshes c = []) cs.
Proof.
  unfold collectMeshes. cbn [traverse]. csimpl.
  destruct k as [|m|]; cbn; try done; intros Hnil.
  - split; [done|]. apply omap_concat_nil in Hnil.
    by rewrite Forall_fmap in Hnil.
  - split; [done|]. apply omap_concat_nil in Hnil.
    by rewrite Forall_fmap in Hnil.
Qed.

(** A graph without meshes has no world matrix to refresh. *)
Lemma updateWorld_without_meshes (o : Object3D num) :
  forall pw, collectMeshes o = [] -> updateWorld pw o = o.
Proof.
  induction o as [l k cs IH] using Object3D_forall_ind. intros pw Hnil.
  apply collectMeshes_nil_inv in Hnil as [Hk Hcs].
  cbn [updateWorld]. f_equal.
  - destruct k as [|m|]; [done| |done]. by destruct (Hk m).
  - induction cs as [|c cs IHcs]; [done|].
    apply Forall_cons in IH as [IHc IH].
    apply Forall_cons in Hcs as [Hc Hcs].
    cbn [map]. f_equal; auto.
Qed.

(** C3 (as amended). On a model without any mesh [centerModel]
    does not fail: it writes the warning to the console and leaves
    the model as it was, geometry, position and [offset] alike. No
    offset is recorded: a model that had none still has none. *)
Theorem centerModel_without_meshes (model : Model num) :
  collectMeshes (root model) = [] ->
  centerModel model
  = (model, [ConsoleWarn "No meshes found in model to center"])
  /\ offset (centerModel model).1 = offset model.
Proof.
  intros Hnil.
  assert (Hsame : updateMatrixWorld model = model).
  { unfold updateMatrixWorld. rewrite updateWorld_without_meshes by done.
    by destruct model. }
  unfold centerModel. rewrite Hsame, Hnil. done.
Qed.

Lemma centerModel_output (model : Model num) :
  Forall notRemoval (centerModel model).2.
Proof.
  unfold centerModel.
  destruct (collectMeshes (root (updateMatrixWorld model))); cbn.
  - repeat constructor.
  - destruct (boxIsEmpty _); cbn; repeat constructor.
Qed.
End CenteringFacts.

(** C3: after centering a freshly parsed model without meshes, the
    recorded offset is absent, not the zero vector. *)
Lemma centerModel_records_no_offset :
  collectMeshes (root Demo.emptyModel) = []
  /\ offset (centerModel Demo.emptyModel).1 = None
  /\ offset (centerModel Demo.emptyModel).1 <> Some vzero.
Proof. repeat split. discriminate. Qed.

(** Centering the sample model that has no mesh. *)
Lemma centerModel_without_meshes_witness :
  centerModel Demo.emptyModel
  = (Demo.emptyModel, [ConsoleWarn "No meshes found in model to center"])
  /\ offset (centerModel Demo.emptyModel).1 = offset Demo.emptyModel.
Proof.
  apply (centerModel_without_meshes Demo.emptyModel). reflexivity.
Defined.

(** ** Highlighting and reloading *)

Section HighlightFacts.
Context {num : Type} `{Float num}.
Variable loader : IFCLoader num.

Lemma untouched_refl st : untouched st st.
Proof. split; [done|]. exists []. by rewrite app_nil_r. Qed.

Lemma untouched_trans st1 st2 st3 :
  untouched st1 st2 -> untouched st2 st3 -> untouched st1 st3.
Proof.
  intros [Hs1 (es1 & He1 & Hq1)] [Hs2 (es2 & He2 & Hq2)].
  split; [congruence|]. exists (es1 ++ es2). split.
  - by rewrite He2, He1, app_assoc.
  - by apply Forall_app.
Qed.

Lemma untouched_emit st es : Forall notRemoval es -> untouched st (emit st es).
Proof. intros Hes. split; [done|]. by exists es. Qed.

Lemma untouched_setScene st sc : untouched st (setScene st sc).
Proof. split; [done|]. exists []. by rewrite app_nil_r. Qed.

Lemma untouched_setCurrentModel st m : untouched st (setCurrentModel st m).
Proof. split; [done|]. exists []. by rewrite app_nil_r. Qed.

Lemma untouched_reportProgress b st p : untouched st (reportProgress b st p).
Proof.
  unfold reportProgress. destruct b; [|apply untouched_refl].
  apply untouched_emit. repeat constructor.
Qed.

Lemma untouched_downloadProgress b evs :
  forall st, untouched st (fold_left (downloadProgress b) evs st).
Proof.
  induction evs as [|ev evs IH]; intros st; cbn [fold_left];
    [apply untouched_refl|].
  eapply untouched_trans; [|apply IH].
  unfold downloadProgress. destruct (b && lengthComputable ev);
    [|apply untouched_refl].
  apply untouched_emit. repeat constructor.
Qed.

Lemma disposeMesh_events (m : Mesh num) : Forall notRemoval (disposeMesh m).
Proof.
  unfold disposeMesh. apply Forall_app. split.
  - destruct (geometry m); repeat constructor.
  - destruct (material m) as [ms|]; [|constructor].
    induction ms; repeat constructor. done.
Qed.

Lemma untouched_disposeCurrentModel st : untouched st (disposeCurrentModel st).
Proof.
  unfold disposeCurrentModel.
  destruct (currentModel st) as [model|]; [|apply untouched_refl].
  eapply untouched_trans; [|apply untouched_setCurrentModel].
  eapply untouched_trans; [|apply untouched_emit].
  - eapply untouched_trans; [|apply untouched_setScene].
    apply untouched_emit. repeat constructor.
  - apply Forall_concat, Forall_fmap, Forall_forall.
    intros m _. apply disposeMesh_events.
Qed.

(** C4 (as amended). [loadIFC] never touches the highlight: whether
    the load succeeds or fails, [currentSubset] is afterwards what
    it was before, and no [removeSubset] call was made to the
    engine. A highlight of the previous model stays live until the
    next [highlightElement] or [removeHighlight]. *)
Theorem loadIFC_keeps_highlight (st : State) url onProgress :
  currentSubset (loadIFC loader st url onProgress).1 = currentSubset st
  /\ exists es,
       events (loadIFC loader st url onProgress).1 = events st ++ es
       /\ Forall notRemoval es.
Proof.
  change (untouched st (loadIFC loader st url onProgress).1).
  unfold loadIFC.
  destruct (useWebWorkers loader); [|apply untouched_refl].
  destruct (load loader url) as [evs res].
  assert (Hdl : untouched st
            (fold_left (downloadProgress onProgress) evs
               (reportProgress onProgress (disposeCurrentModel st)
                  (mkLoadingProgress 0 100 0 "Starting download...")))).
  { eapply untouched_trans; [apply untouched_disposeCurrentModel|].
    eapply untouched_trans; [apply untouched_reportProgress|].
    apply untouched_downloadProgress. }
  destruct res as [ifcModel|].
  - pose proof (centerModel_output ifcModel) as Hout.
    destruct (centerModel ifcModel) as [centered out]. cbn [fst snd] in *.
    eapply untouched_trans; [|apply untouched_setCurrentModel].
    eapply untouched_trans;
      [|apply untouched_emit; repeat constructor].
    eapply untouched_trans; [|apply untouched_reportProgress].
    eapply untouched_trans; [|apply (untouched_emit _ out Hout)].
    eapply untouched_trans; [|apply untouched_setCurrentModel].
    eapply untouched_trans; [|apply untouched_setScene].
    exact Hdl.
  - cbn [fst].
    eapply untouched_trans; [|apply untouched_reportProgress].
    eapply untouched_trans;
      [|apply untouched_emit; repeat constructor].
    exact Hdl.
Qed.

(** What [removeHighlight] adds to the events, given the highlight
    it found. *)
Lemma removeHighlight_events (st : State) :
  match currentSubset st with
  | Some old =>
      exists tail,
        events (removeHighlight loader st)
        = events st ++ RemoveSubsetCall (default 0 (modelID old)) :: tail
        /\ Forall notCreation tail
  | None => removeHighlight loader st = st
  end.
Proof.
  unfold removeHighlight. destruct (currentSubset st) as [old|]; [|done].
  destruct (removeSubset loader _).
  - by exists [].
  - exists [ConsoleError "Error removing highlight:"]. cbn.
    split; [by rewrite <- app_assoc|repeat constructor].
Qed.

Lemma removeHighlight_currentModel (st : State) :
  currentModel (removeHighlight loader st) = currentModel st.
Proof.
  unfold removeHighlight. destruct (currentSubset st) as [old|]; [|done].
  by destruct (removeSubset loader _).
Qed.


(** Without a recorded offset the subset is shown as built. *)
Lemma highlightElement_without_offset
    (st : State) (mid eid : Z) model subset :
  currentModel st = Some model ->
  offset model = None ->
  createSubset loader mid [eid] = Ok subset ->
  currentSubset (highlightElement loader st mid eid) = Some subset.
Proof.
  intros Hm Hoff Hsub. unfold highlightElement.
  by rewrite removeHighlight_currentModel, Hm, Hsub, Hoff.
Qed.

(** C10 (as amended). With no model loaded, [highlightElement] does
    what [removeHighlight] does and nothing more: it returns
    without a [createSubset] call and without an error. No highlight
    is live afterwards provided the engine's [removeSubset] did not
    throw; when it throws, the error is logged and the highlight
    stays recorded. *)
Theorem highlightElement_without_model (st : State) (mid eid : Z) :
  currentModel st = None ->
  highlightElement loader st mid eid = removeHighlight loader st
  /\ (exists es,
        events (highlightElement loader st mid eid)
        = events st ++ es
        /\ Forall notCreation es)
  /\ ((forall old, currentSubset st = Some old ->
         removeSubset loader (default 0 (modelID old)) = Ok tt) ->
      currentSubset (highlightElement loader st mid eid) = None)
  /\ (forall old, currentSubset st = Some old ->
        removeSubset loader (default 0 (modelID old)) = Throw ->
        currentSubset (highlightElement loader st mid eid)
        = Some old).
Proof.
  intros Hm.
  assert (Heq : highlightElement loader st mid eid
                = removeHighlight loader st).
  { unfold highlightElement. by rewrite removeHighlight_currentModel, Hm. }
  rewrite Heq. split_and!; [done|..].
  - pose proof (removeHighlight_events st) as Hev.
    destruct (currentSubset st) as [old|].
    + destruct Hev as (tail & -> & Htail). eexists. split; [done|].
      constructor; [exact I|done].
    + rewrite Hev. exists []. by rewrite app_nil_r.
  - intros Hok. unfold removeHighlight.
    destruct (currentSubset st) as [old|] eqn:Hold; [|done].
    by rewrite (Hok old eq_refl).
  - intros old Hold Hthrow. unfold removeHighlight.
    rewrite Hold, Hthrow. done.
Qed.
End HighlightFacts.

(** C4: a wall is highlighted, then another file is loaded; the new
    model is live and the subset built for the old one still is the
    current highlight. *)
Lemma loadIFC_leaves_old_highlight :
  currentSubset Demo.highlightedWall = Some Demo.subsetMesh
  /\ (loadIFC Demo.wallLoader Demo.highlightedWall "next.ifc" true).2
     = Resolved Demo.emptyModel
  /\ currentModel (loadIFC Demo.wallLoader Demo.highlightedWall "next.ifc" true).1
     = Some Demo.emptyModel
  /\ currentSubset (loadIFC Demo.wallLoader Demo.highlightedWall "next.ifc" true).1
     = Some Demo.subsetMesh
  /\ currentSubset (loadIFC Demo.wallLoader Demo.highlightedWall "next.ifc" true).1
     <> None.
Proof. repeat split. discriminate. Qed.


(** In a model without an offset the highlight is the subset as the
    engine built it. *)
Example highlightElement_uncentered :
  offset Demo.wallModel = None
  /\ currentSubset (highlightElement Demo.wallLoader Demo.viewingWall 0 1)
     = Some Demo.subsetMesh.
Proof. by split. Qed.

(** C10: no model is loaded, a highlight is still recorded, and the
    engine's [removeSubset] throws; the highlight is live afterwards. *)
Lemma highlightElement_keeps_stuck_highlight :
  currentModel Demo.orphanHighlight = None
  /\ removeSubset Demo.stuckLoader 0 = Throw
  /\ currentSubset (highlightElement Demo.stuckLoader Demo.orphanHighlight 0 1)
     = Some Demo.subsetMesh
  /\ currentSubset (highlightElement Demo.stuckLoader Demo.orphanHighlight 0 1)
     <> None.
Proof. repeat split. discriminate. Qed.

(** A leftover highlight is removed when the engine complies. *)
Lemma highlightElement_without_model_witness :
  currentSubset (highlightElement Demo.wallLoader Demo.orphanHighlight 0 1)
  = None.
Proof.
  apply (highlightElement_without_model Demo.wallLoader Demo.orphanHighlight
           0 1 eq_refl).
  intros old _. reflexivity.
Defined.

(** * Further properties *)

(** ** Class labels *)

Lemma capital_not_white (u : Z) : isCapital u = true -> isWhiteSpace u = false.
Proof. unfold isCapital, isWhiteSpace. lia. Qed.

Lemma withoutWhiteSpace_cons (u : Z) (s : jsstring) :
  withoutWhiteSpace (u :: s)
  = if isWhiteSpace u then withoutWhiteSpace s else u :: withoutWhiteSpace s.
Proof. unfold withoutWhiteSpace. cbn [List.filter]. by destruct (isWhiteSpace u). Qed.

Lemma withoutWhiteSpace_spaceCapitals (s : jsstring) :
  withoutWhiteSpace (spaceCapitals s) = withoutWhiteSpace s.
Proof.
  induction s as [|u s IH]; [done|]. cbn [spaceCapitals].
  destruct (isCapital u) eqn:Hu.
  - rewrite !withoutWhiteSpace_cons. change (isWhiteSpace 32) with true.
    by rewrite IH.
  - by rewrite !withoutWhiteSpace_cons, IH.
Qed.

Lemma withoutWhiteSpace_trimStart (s : jsstring) :
  withoutWhiteSpace (trimStart s) = withoutWhiteSpace s.
Proof.
  induction s as [|u s IH]; [done|]. cbn [trimStart].
  rewrite withoutWhiteSpace_cons.
  destruct (isWhiteSpace u) eqn:Hu; [done|].
  by rewrite withoutWhiteSpace_cons, Hu.
Qed.

Lemma withoutWhiteSpace_trimEnd (s : jsstring) :
  withoutWhiteSpace (trimEnd s) = withoutWhiteSpace s.
Proof.
  induction s as [|u s IH]; [done|]. cbn [trimEnd].
  rewrite (withoutWhiteSpace_cons u s), <- IH.
  destruct (trimEnd s) as [|d t].
  - destruct (isWhiteSpace u) eqn:Hu; [done|].
    by rewrite withoutWhiteSpace_cons, Hu.
  - by rewrite withoutWhiteSpace_cons.
Qed.

Lemma trimStart_head (s : jsstring) (u : Z) :
  head (trimStart s) = Some u -> isWhiteSpace u = false.
Proof.
  induction s as [|d s IH]; [done|]. cbn [trimStart].
  destruct (isWhiteSpace d) eqn:Hd; [done|]. by intros [= <-].
Qed.

Lemma trimEnd_head (s : jsstring) (u : Z) :
  head (trimEnd s) = Some u -> head s = Some u.
Proof.
  destruct s as [|d s]; [done|]. cbn [trimEnd].
  destruct (trimEnd s); [|done].
  by destruct (isWhiteSpace d).
Qed.

Lemma trimEnd_last (s : jsstring) (u : Z) :
  last (trimEnd s) = Some u -> isWhiteSpace u = false.
Proof.
  induction s as [|d s IH]; [done|]. cbn [trimEnd].
  destruct (trimEnd s) as [|e t] eqn:Ht.
  - destruct (isWhiteSpace d) eqn:Hd; [done|]. by intros [= <-].
  - intros Hl. apply IH. exact Hl.
Qed.

Lemma typeName_truthy (props : Labelled) :
  typeName props <> OtherFalsy /\ typeName props <> Text [].
Proof.
  unfold typeName.
  destruct (typeValue props) as [[|? ?]| |];
    destruct (constructorName props) as [[|? ?]| |]; cbn; split; congruence.
Qed.

(** X1. The label [getElementType] returns never starts and never
    ends with white space, although a space is put before every
    capital letter of the class name. White space is every code unit
    that [trim] removes. *)
Theorem getElementType_trimmed
    (properties : option Labelled) (label : jsstring) (u : Z) :
  getElementType properties = Ok label ->
  head label = Some u \/ last label = Some u ->
  isWhiteSpace u = false.
Proof.
  destruct properties as [props|]; cbn [getElementType].
  - destruct (typeName props) as [type| |]; [|done..].
    intros [= <-]. unfold trim. intros [Hf|Hl].
    + apply trimEnd_head in Hf. by eapply trimStart_head.
    + by eapply trimEnd_last.
  - intros [= <-]. intros [[= <-]|[= <-]]; reflexivity.
Qed.

Lemma getElementType_trimmed_witness :
  getElementType (Some (mkLabelled OtherFalsy (Text (unitsOf "IfcWall"))))
  = Ok (unitsOf "Wall")
  /\ isWhiteSpace 87 = false.
Proof.
  split; [reflexivity|].
  apply (getElementType_trimmed
           (Some (mkLabelled OtherFalsy (Text (unitsOf "IfcWall"))))
           (unitsOf "Wall")); [reflexivity|].
  left. reflexivity.
Defined.

(** X2. [getElementType] only removes a leading [Ifc] and adds or
    removes white space: when the name it picks is a string, taking
    the white space out of the label gives that name, without the
    prefix and without its own white space, back. A truthy name that
    is not a string makes the call throw. *)
Theorem getElementType_keeps_name (props : Labelled) :
  match typeName props with
  | Text name =>
      exists label,
        getElementType (Some props) = Ok label
        /\ withoutWhiteSpace label = withoutWhiteSpace (stripIfc name)
  | _ => getElementType (Some props) = Throw
  end.
Proof.
  cbn [getElementType]. destruct (typeName props) as [name| |]; [|done..].
  eexists. split; [reflexivity|]. unfold trim.
  by rewrite withoutWhiteSpace_trimEnd, withoutWhiteSpace_trimStart,
             withoutWhiteSpace_spaceCapitals.
Qed.

(** The class name of the engine's record is used when the record
    has no [type.value]. *)
Lemma getElementType_keeps_name_witness :
  exists label,
    getElementType
      (Some (mkLabelled OtherFalsy (Text (unitsOf "IfcWallStandardCase"))))
    = Ok label
    /\ withoutWhiteSpace label = unitsOf "WallStandardCase".
Proof.
  exact (getElementType_keeps_name
           (mkLabelled OtherFalsy (Text (unitsOf "IfcWallStandardCase")))).
Defined.

(** Labels of a standard-case wall, of a record whose [type.value]
    is a string, of a record that names nothing, of a record whose
    [type.value] is a number, and of a name wrapped in a no-break
    space and a line separator. *)
Example getElementType_samples :
  getElementType
    (Some (mkLabelled OtherFalsy (Text (unitsOf "IfcWallStandardCase"))))
  = Ok (unitsOf "Wall Standard Case")
  /\ getElementType
       (Some (mkLabelled (Text (unitsOf "IFCDOOR")) (Text (unitsOf "Object"))))
     = Ok (unitsOf "I F C D O O R")
  /\ getElementType (Some (mkLabelled OtherFalsy OtherFalsy))
     = Ok (unitsOf "I F C  Element")
  /\ getElementType (Some (mkLabelled OtherTruthy (Text (unitsOf "Object"))))
     = Throw
  /\ getElementType
       (Some (mkLabelled (Text (160 :: unitsOf "Door" ++ [8232])) OtherFalsy))
     = Ok (unitsOf "Door")
  /\ getElementType None = Ok (unitsOf "Unknown").
Proof. split_and!; reflexivity. Qed.

(** ** Fit to view *)

(** X3. Two middle clicks less than 300 ms apart fit the camera on
    the second click, when the first click came at least 300 ms after
    the one recorded before it. *)
Theorem double_middle_click_fits (last t1 t2 : Z) :
  DOUBLE_CLICK_DELAY <= t1 - last ->
  t2 - t1 < DOUBLE_CLICK_DELAY ->
  mouseDowns last [(1, t1); (1, t2)] = [false; true].
Proof.
  intros H1 H2. cbn [mouseDowns]. unfold onMouseDown. cbn [Z.eqb Pos.eqb].
  destruct (Z.ltb_spec (t1 - last) DOUBLE_CLICK_DELAY); [lia|].
  destruct (Z.ltb_spec (t2 - t1) DOUBLE_CLICK_DELAY); [done|lia].
Qed.

Lemma double_middle_click_fits_witness :
  mouseDowns 0 [(1, 1000); (1, 1100)] = [false; true].
Proof.
  apply (double_middle_click_fits 0 1000 1100); unfold DOUBLE_CLICK_DELAY; lia.
Defined.

(** X4. With clock values of at least 300, an event that fits the
    camera is never followed at once by another one that does: the
    recorded time is reset, so a third quick click starts over. *)
Theorem fit_never_twice_in_a_row (evs : list (Z * Z)) :
  Forall (fun ev => DOUBLE_CLICK_DELAY <= ev.2) evs ->
  forall last (i : nat),
    mouseDowns last evs !! i = Some true ->
    mouseDowns last evs !! S i <> Some true.
Proof.
  induction 1 as [|[button t] evs Ht Hevs IH]; intros last i; [done|].
  cbn [mouseDowns].
  destruct (onMouseDown last button t) as [last' fit] eqn:Hstep.
  destruct i as [|i]; cbn [lookup list_lookup].
  - intros [= ->].
    assert (last' = 0) as ->.
    { unfold onMouseDown in Hstep. destruct (button =? 1); [|congruence].
      destruct (t - last <? DOUBLE_CLICK_DELAY); congruence. }
    destruct Hevs as [|[button2 t2] evs Ht2 _]; [done|].
    cbn [mouseDowns]. unfold onMouseDown. cbn in Ht2.
    destruct (button2 =? 1); [|done].
    destruct (Z.ltb_spec (t2 - 0) DOUBLE_CLICK_DELAY); [lia|done].
  - apply IH.
Qed.

Lemma fit_never_twice_in_a_row_witness :
  mouseDowns 0 [(1, 1000); (1, 1100); (1, 1200)] !! 2%nat <> Some true.
Proof.
  apply (fit_never_twice_in_a_row [(1, 1000); (1, 1100); (1, 1200)]).
  - repeat constructor; unfold DOUBLE_CLICK_DELAY; cbn; lia.
  - reflexivity.
Defined.

(** ** What a result says *)

Section FlagFacts.
Context {A B : Type} (body : A -> B -> fetch A).
Context (flag : A -> bool) (raises : B -> bool).

(** A flag that each turn raises at certain elements and never
    lowers is raised by the loop exactly when it was raised before
    or one of those elements is met. *)
Lemma forOf_flag (l : list B) :
  (forall a b a', body a b = Ok a' -> flag a' = flag a || raises b) ->
  forall a a', forOf body l a = Ok a' -> flag a' = flag a || existsb raises l.
Proof.
  intros Hstep. induction l as [|b l IH]; intros a a' Hrun; cbn in Hrun.
  - injection Hrun as <-. by rewrite orb_false_r.
  - destruct (body a b) as [a1|] eqn:Hb; [|done].
    rewrite (IH a1 a' Hrun), (Hstep a b a1 Hb). cbn [existsb].
    by rewrite orb_assoc.
Qed.
End FlagFacts.

Section VerdictFacts.
Variable propertySets : PsetList.

Lemma checkPset_flag f reqPset f' :
  checkPset propertySets f reqPset = Ok f' ->
  hasError f' = hasError f || psetMissing propertySets reqPset.
Proof.
  unfold checkPset, psetMissing.
  destruct (findPset propertySets reqPset) as [[ps|]|]; intros [= <-]; cbn.
  - by rewrite orb_false_r.
  - by rewrite orb_true_r.
Qed.

Lemma checkProperty_flag hasProperties psetName reqProps :
  forall f,
    hasError (fold_left (checkProperty hasProperties psetName) reqProps f)
    = hasError f
      || negb (forallb (fun p => existsb (nameIs p) hasProperties) reqProps).
Proof.
  induction reqProps as [|p reqProps IH]; intros f; cbn [fold_left forallb].
  - cbn. by rewrite orb_false_r.
  - rewrite IH. unfold checkProperty.
    destruct (existsb (nameIs p) hasProperties); cbn; [done|].
    by rewrite orb_true_r.
Qed.

Lemma checkProperties_flag f entry f' :
  checkProperties propertySets f entry = Ok f' ->
  hasError f' = hasError f || propertiesViolated propertySets entry.
Proof.
  destruct entry as [psetName reqProps].
  unfold checkProperties, propertiesViolated. cbn [fst snd].
  destruct (findPset propertySets psetName) as [[ps|]|]; [| |done].
  - destruct (rec_HasProperties ps) as [hs|]; intros [= <-].
    + apply checkProperty_flag.
    + cbn. by rewrite orb_true_r.
  - intros [= <-]. by rewrite orb_false_r.
Qed.

Lemma checkRule_flag f rule f' :
  checkRule propertySets f rule = Ok f' ->
  hasError f' = hasError f || ruleViolated propertySets rule.
Proof.
  unfold checkRule, ruleViolated.
  destruct (forOf (checkPset propertySets) (requiredPsets rule) f)
    as [f1|] eqn:Hpsets; [|done].
  intros Hprops.
  rewrite (forOf_flag _ hasError (propertiesViolated propertySets) _
             checkProperties_flag _ _ Hprops).
  rewrite (forOf_flag _ hasError (psetMissing propertySets) _
             checkPset_flag _ _ Hpsets).
  by rewrite orb_assoc.
Qed.
End VerdictFacts.

Section VerdictOfElement.
Context {num : Type} `{Float num}.
Variable loader : IFCLoader num.

(** X7. An element's result says [passed] exactly when no applicable
    rule is violated: every set a rule requires is among the fetched
    sets, and every set a rule requires properties of is either not
    fetched at all or has [HasProperties] holding each required
    name. *)
Theorem validateElement_verdict (mesh : Mesh num) rules r psets :
  validateElement loader mesh rules = Some r ->
  getPropertySets loader (default 0 (modelID mesh)) (jsOfId (expressID mesh))
  = Ok psets ->
  passed r
  = negb (existsb (ruleViolated psets)
            (List.filter (applicable (result_ifcClass r)) rules)).
Proof.
  intros Hr Hpsets. unfold validateElement in Hr.
  destruct (getItemProperties loader _ _) as [props|]; [|done].
  destruct (if truthy (rec_type props) then _ else _) as [| |t]; try done.
  destruct (List.filter (applicable (toUpperCase t)) rules)
    as [|r0 rs] eqn:Hfilter; [done|].
  rewrite Hpsets in Hr.
  destruct (forOf (checkRule psets) (r0 :: rs) _) as [f|] eqn:Hrun; [|done].
  pose proof (forOf_flag _ hasError (ruleViolated psets) _
                (checkRule_flag psets) _ _ Hrun) as Hflag.
  cbn [hasError orb] in Hflag.
  destruct (hasError f) eqn:Herr; injection Hr as <-; cbn [passed result_ifcClass];
    rewrite Hfilter, <- Hflag; done.
Qed.

(** What an element's result carries of the element itself. *)
Lemma validateElement_identity (mesh : Mesh num) rules r :
  validateElement loader mesh rules = Some r ->
  elementID r = expressID mesh
  /\ result_modelID r = default 0 (modelID mesh).
Proof.
  unfold validateElement.
  destruct (getItemProperties loader _ _) as [props|]; [|done].
  destruct (if truthy (rec_type props) then _ else _) as [| |t]; try done.
  destruct (List.filter _ rules); [done|].
  destruct (getPropertySets loader _ _) as [psets|]; [|done].
  destruct (forOf _ _ _) as [f|]; [|done].
  by destruct (hasError f); intros [= <-].
Qed.
End VerdictOfElement.

(** The wall against the default rules: its [Pset_WallCommon] has no
    [HasProperties], so the first rule is violated. *)
Lemma validateElement_verdict_witness :
  let r := mkResult (Some 1) 0 "IFCWALLSTANDARDCASE" []
             {[ "Pset_WallCommon" := ["LoadBearing"; "IsExternal"] ]} false in
  passed r
  = negb (existsb (ruleViolated (Some [Demo.emptyWallCommon]))
            (List.filter (applicable (result_ifcClass r)) Demo.defaultRules)).
Proof.
  intros r.
  apply (validateElement_verdict Demo.wallLoader Demo.wallMesh
           Demo.defaultRules r (Some [Demo.emptyWallCommon])).
  - vm_compute. reflexivity.
  - reflexivity.
Defined.

(** ** Nothing is reported without cause *)

Lemma fold_left_invariant {A B} (P : A -> Prop) (step : A -> B -> A)
    (l : list B) :
  (forall a b, b ∈ l -> P a -> P (step a b)) ->
  forall a, P a -> P (fold_left step l a).
Proof.
  induction l as [|b l IH]; intros Hstep a Ha; cbn [fold_left]; [done|].
  apply IH.
  - intros a' b' Hb'. apply Hstep. by right.
  - apply Hstep; [left|done].
Qed.

Section Justification.
Variable propertySets : PsetList.
Variable rules : list ValidationRule.

Lemma justified_start : justified propertySets rules (mkFindings [] ∅ false).
Proof.
  split; cbn.
  - intros n Hn. by apply not_elem_of_nil in Hn.
  - intros n l p Hl. by rewrite lookup_empty in Hl.
Qed.

Lemma checkPset_justified rule f reqPset f' :
  rule ∈ rules ->
  reqPset ∈ requiredPsets rule ->
  justified propertySets rules f ->
  checkPset propertySets f reqPset = Ok f' ->
  justified propertySets rules f'.
Proof.
  intros Hrule Hreq [Hsets Hprops]. unfold checkPset.
  destruct (findPset propertySets reqPset) as [[ps|]|] eqn:Hfind;
    intros [= <-]; [done|].
  split; cbn; [|done].
  intros n [Hn| ->]%elem_of_pushUnique; [by apply Hsets|].
  split; [done|]. by exists rule.
Qed.

Lemma checkProperty_justified rule psetName reqProps ps hs f propName :
  rule ∈ rules ->
  (psetName, reqProps) ∈ requiredProperties rule ->
  propName ∈ reqProps ->
  findPset propertySets psetName = Ok (Some ps) ->
  rec_HasProperties ps = Some hs ->
  justified propertySets rules f ->
  justified propertySets rules (checkProperty hs psetName f propName).
Proof.
  intros Hrule Hentry Hp Hfind Hhs [Hsets Hprops]. unfold checkProperty.
  destruct (existsb (nameIs propName) hs) eqn:Hex; [done|].
  split; cbn; [done|].
  intros n l p. destruct (decide (psetName = n)) as [<-|Hne].
  - rewrite lookup_insert_eq. intros [= <-] [Hin| ->]%elem_of_pushUnique.
    + destruct (f_missingProperties f !! psetName) as [l0|] eqn:Hl0; cbn in Hin.
      * by eapply Hprops.
      * by apply not_elem_of_nil in Hin.
    + exists rule, reqProps, ps. split_and!; try done. congruence.
  - rewrite lookup_insert_ne by done. apply Hprops.
Qed.

Lemma checkProperties_justified rule f entry f' :
  rule ∈ rules ->
  entry ∈ requiredProperties rule ->
  justified propertySets rules f ->
  checkProperties propertySets f entry = Ok f' ->
  justified propertySets rules f'.
Proof.
  intros Hrule Hentry Hf. destruct entry as [psetName reqProps].
  unfold checkProperties.
  destruct (findPset propertySets psetName) as [[ps|]|] eqn:Hfind;
    [|by intros [= <-]|done].
  destruct (rec_HasProperties ps) as [hs|] eqn:Hhs; intros [= <-].
  - apply fold_left_invariant; [|done].
    intros a p Hp Ha. by eapply checkProperty_justified.
  - destruct Hf as [Hsets Hprops]. split; cbn; [done|].
    intros n l p. destruct (decide (psetName = n)) as [<-|Hne].
    + rewrite lookup_insert_eq. intros [= <-] [Hin|Hin]%elem_of_app.
      * destruct (f_missingProperties f !! psetName) as [l0|] eqn:Hl0;
          cbn in Hin.
        -- by eapply Hprops.
        -- by apply not_elem_of_nil in Hin.
      * exists rule, reqProps, ps. split_and!; try done. congruence.
    + rewrite lookup_insert_ne by done. apply Hprops.
Qed.

Lemma checkRule_justified f rule f' :
  rule ∈ rules ->
  justified propertySets rules f ->
  checkRule propertySets f rule = Ok f' ->
  justified propertySets rules f'.
Proof.
  intros Hrule Hf. unfold checkRule.
  destruct (forOf (checkPset propertySets) (requiredPsets rule) f)
    as [f1|] eqn:Hpsets; [|done].
  intros Hprops.
  apply (forOf_invariant _ (justified propertySets rules) _ _ _ Hprops).
  - apply (forOf_invariant _ (justified propertySets rules) _ _ _ Hpsets Hf).
    intros a b a' Hb. by apply (checkPset_justified rule).
  - intros a b a' Hb. by apply (checkProperties_justified rule).
Qed.
End Justification.

Section ReportFacts.
Context {num : Type} `{Float num}.
Variable loader : IFCLoader num.

(** X8. Nothing is reported without cause. Every name in an
    element's [missingPsets] is required by an applicable rule and
    absent from the fetched sets; every name in a [missingProperties]
    list is required, by an applicable rule, of a set that was
    fetched, and that set's [HasProperties], if it has any, does not
    hold the name. *)
Theorem validateElement_justified (mesh : Mesh num) rules r psets :
  validateElement loader mesh rules = Some r ->
  getPropertySets loader (default 0 (modelID mesh)) (jsOfId (expressID mesh))
  = Ok psets ->
  justified psets (List.filter (applicable (result_ifcClass r)) rules)
            (mkFindings (missingPsets r) (missingProperties r)
                        (negb (passed r))).
Proof.
  intros Hr Hpsets. unfold validateElement in Hr.
  destruct (getItemProperties loader _ _) as [props|]; [|done].
  destruct (if truthy (rec_type props) then _ else _) as [| |t]; try done.
  destruct (List.filter (applicable (toUpperCase t)) rules)
    as [|r0 rs] eqn:Hfilter; [done|].
  rewrite Hpsets in Hr.
  destruct (forOf (checkRule psets) (r0 :: rs) _) as [f|] eqn:Hrun; [|done].
  assert (Hf : justified psets (r0 :: rs) f).
  { apply (forOf_invariant _ (justified psets (r0 :: rs)) _ _ _ Hrun).
    - apply justified_start.
    - intros a b a' Hb. by apply checkRule_justified. }
  destruct (hasError f); injection Hr as <-; cbn; rewrite Hfilter.
  - by destruct f.
  - destruct (justified_start psets (r0 :: rs)) as [Hs Hp]. by split.
Qed.

Lemma failures_of_meshes rules (meshes : list (Mesh num)) :
  (length (omap (failure loader rules) meshes) <= length meshes)%nat
  /\ (forall r, r ∈ omap (failure loader rules) meshes ->
        passed r = false
        /\ exists mesh, mesh ∈ meshes
                        /\ validateElement loader mesh rules = Some r
                        /\ elementID r = expressID mesh)
  /\ (NoDup (expressID <$> meshes) ->
      NoDup (elementID <$> omap (failure loader rules) meshes)).
Proof.
  split_and!.
  - induction meshes as [|m meshes IH]; csimpl; [done|].
    destruct (failure loader rules m); cbn [length]; lia.
  - intros r (mesh & Hmesh & Hfail)%list_elem_of_omap.
    split; [by eapply failure_not_passed|].
    exists mesh. unfold failure in Hfail.
    destruct (validateElement loader mesh rules) as [r'|] eqn:Hr'; [|done].
    destruct (passed r'); [done|]. injection Hfail as <-.
    split_and!; [done..|]. by destruct (validateElement_identity _ _ _ _ Hr').
  - assert (Hsub : forall (ms : list (Mesh num)) (x : option Z),
              x ∈ elementID <$> omap (failure loader rules) ms ->
              x ∈ expressID <$> ms).
    { intros ms x (r & -> & Hr)%list_elem_of_fmap.
      apply list_elem_of_omap in Hr as (mesh & Hmesh & Hfail).
      apply list_elem_of_fmap. exists mesh. split; [|done].
      unfold failure in Hfail.
      destruct (validateElement loader mesh rules) as [r'|] eqn:Hr'; [|done].
      destruct (passed r'); [done|]. injection Hfail as <-.
      by destruct (validateElement_identity _ _ _ _ Hr'). }
    induction meshes as [|m meshes IH]; csimpl; [constructor|].
    intros [Hm Hnd]%NoDup_cons.
    destruct (failure loader rules m) as [r|] eqn:Hfail; csimpl; [|by apply IH].
    apply NoDup_cons. split; [|by apply IH].
    intros Hin. apply Hm. apply Hsub in Hin.
    unfold failure in Hfail.
    destruct (validateElement loader m rules) as [r'|] eqn:Hr'; [|done].
    destruct (passed r'); [done|]. injection Hfail as <-.
    destruct (validateElement_identity _ _ _ _ Hr') as [<- _]. done.
Qed.

(** X9. The list a run resolves with has at most as many entries as
    there are indexed elements; each entry is the result of one of
    them, carries that element's [expressID] and [passed = false];
    and when the elements' [expressID]s are distinct, so are the
    entries' [elementID]s. *)
Theorem validateModel_entries (st : State) rules onProgress model results :
  getCurrentModel st = Some model ->
  settled (validateModel loader st rules onProgress) = Resolved results ->
  (length results <= length (indexedMeshes model))%nat
  /\ (forall r, r ∈ results ->
        passed r = false
        /\ exists mesh, mesh ∈ indexedMeshes model
                        /\ validateElement loader mesh rules = Some r
                        /\ elementID r = expressID mesh)
  /\ (NoDup (expressID <$> indexedMeshes model) ->
      NoDup (elementID <$> results)).
Proof.
  intros Hm Hres.
  rewrite (validateModel_results loader st rules onProgress model Hm) in Hres.
  injection Hres as <-. apply failures_of_meshes.
Qed.

Lemma validateStep_silent rules total (meshes : list (Mesh num)) :
  forall results processed calls,
    (fold_left (validateStep loader rules false total) meshes
               (results, processed, calls)).2 = calls.
Proof.
  induction meshes as [|mesh meshes IH]; intros results processed calls;
    [done|].
  cbn [fold_left validateStep andb]. apply IH.
Qed.

(** X10. The callback only listens: a run resolves with the same list
    whether or not [onProgress] is given, and without it no progress
    value is produced at all. *)
Theorem validateModel_callback_independent (st : State) rules :
  settled (validateModel loader st rules true)
  = settled (validateModel loader st rules false)
  /\ progressCalls (validateModel loader st rules false) = [].
Proof.
  destruct (getCurrentModel st) as [model|] eqn:Hm.
  - split.
    + by rewrite !(validateModel_results loader st rules _ model Hm).
    + unfold validateModel. rewrite Hm.
      pose proof (validateStep_silent rules
                    (Z.of_nat (length (indexedMeshes model)))
                    (indexedMeshes model) [] 0 []) as Hs.
      destruct (fold_left _ _ _) as [[results processed] calls]. done.
  - unfold validateModel. by rewrite Hm.
Qed.
End ReportFacts.

(** The wall against the default rules: both names are required by
    the first rule of a set that is there without [HasProperties]. *)
Lemma validateElement_justified_witness :
  let r := mkResult (Some 1) 0 "IFCWALLSTANDARDCASE" []
             {[ "Pset_WallCommon" := ["LoadBearing"; "IsExternal"] ]} false in
  justified (Some [Demo.emptyWallCommon])
            (List.filter (applicable (result_ifcClass r)) Demo.defaultRules)
            (mkFindings (missingPsets r) (missingProperties r)
                        (negb (passed r))).
Proof.
  intros r.
  apply (validateElement_justified Demo.wallLoader Demo.wallMesh
           Demo.defaultRules r (Some [Demo.emptyWallCommon])).
  - vm_compute. reflexivity.
  - reflexivity.
Defined.

(** The single wall against a rule asking for a set it lacks. *)
Lemma validateModel_entries_witness :
  let results := [mkResult (Some 1) 0 "IFCWALLSTANDARDCASE"
                           ["Pset_FireSafety"] ∅ false] in
  (length results <= length (indexedMeshes Demo.wallModel))%nat
  /\ (forall r, r ∈ results ->
        passed r = false
        /\ exists mesh, mesh ∈ indexedMeshes Demo.wallModel
                        /\ validateElement Demo.wallLoader mesh [Demo.fireRule]
                           = Some r
                        /\ elementID r = expressID mesh)
  /\ (NoDup (expressID <$> indexedMeshes Demo.wallModel) ->
      NoDup (elementID <$> results)).
Proof.
  intros results.
  apply (validateModel_entries Demo.wallLoader Demo.viewingWall
           [Demo.fireRule] true Demo.wallModel results).
  - reflexivity.
  - vm_compute. reflexivity.
Defined.

(** ** The meshes of a scene graph *)

Section GraphFacts.
Context {num : Type} `{Float num}.

Lemma omap_concat {A B} (f : A -> option B) (ls : list (list A)) :
  omap f (concat ls) = concat (map (omap f) ls).
Proof.
  induction ls as [|l ls IH]; [done|]. cbn [concat map].
  by rewrite omap_app, IH.
Qed.

Lemma collectMeshes_Obj l (k : NodeKind num) (cs : list (Object3D num)) :
  collectMeshes (Obj l k cs)
  = match k with KMesh m => [m] | _ => [] end
    ++ concat (map collectMeshes cs).
Proof.
  unfold collectMeshes. cbn [traverse]. csimpl.
  rewrite omap_concat, map_map. by destruct k.
Qed.

Lemma concat_map_children {X} (P : Mesh num -> X)
    (T : Object3D num -> Object3D num) (cs : list (Object3D num)) :
  Forall (fun c => map P (collectMeshes (T c)) = map P (collectMeshes c)) cs ->
  map P (concat (map collectMeshes (map T cs)))
  = map P (concat (map collectMeshes cs)).
Proof.
  induction 1 as [|c cs Hc _ IH]; [done|]. cbn [map concat].
  by rewrite !map_app, Hc, IH.
Qed.

Lemma collectMeshes_updateMeshes (f : Mesh num -> Mesh num) (o : Object3D num) :
  collectMeshes (updateMeshes f o) = map f (collectMeshes o).
Proof.
  induction o as [l k cs IH] using Object3D_forall_ind.
  cbn [updateMeshes]. rewrite !collectMeshes_Obj, map_app. f_equal.
  - by destruct k.
  - induction IH as [|c cs Hc _ IHcs]; [done|]. cbn [map concat].
    by rewrite map_app, Hc, IHcs.
Qed.

(** Refreshing the world matrices changes nothing else of a mesh. *)
Lemma collectMeshes_updateWorld (o : Object3D num) :
  forall pw,
    map meshCore (collectMeshes (updateWorld pw o))
    = map meshCore (collectMeshes o).
Proof.
  induction o as [l k cs IH] using Object3D_forall_ind. intros pw.
  cbn [updateWorld]. rewrite !collectMeshes_Obj, !map_app. f_equal.
  - by destruct k.
  - apply concat_map_children.
    apply Forall_forall. intros c Hc. rewrite Forall_forall in IH. by apply IH.
Qed.

Lemma map_through_core {X}
    (h : option Z * option Z * option (BufferGeometry num)
         * option (list Material) -> X)
    (l1 l2 : list (Mesh num)) :
  map meshCore l1 = map meshCore l2 ->
  map (fun m => h (meshCore m)) l1 = map (fun m => h (meshCore m)) l2.
Proof.
  intros Hcore.
  rewrite <- (map_map meshCore h l1), <- (map_map meshCore h l2).
  by rewrite Hcore.
Qed.

Lemma collectMeshes_updateMatrixWorld (model : Model num) :
  map meshCore (collectMeshes (root (updateMatrixWorld model)))
  = map meshCore (collectMeshes (root model)).
Proof. apply collectMeshes_updateWorld. Qed.

(** The meshes of a graph, up to their materials, before and after
    the edge outlines are set up. *)
Lemma setupEdges_projection (o : Object3D num) :
  map (fun m => (expressID m, modelID m, geometry m))
      (collectMeshes (setupEdges o))
  = map (fun m => (expressID m, modelID m, geometry m)) (collectMeshes o).
Proof.
  induction o as [l k cs IH] using Object3D_forall_ind.
  assert (Hcs : map (fun m : Mesh num => (expressID m, modelID m, geometry m))
                    (concat (map collectMeshes (map setupEdges cs)))
                = map (fun m : Mesh num => (expressID m, modelID m, geometry m))
                      (concat (map collectMeshes cs))).
  { by apply concat_map_children. }
  cbn [setupEdges]. destruct k as [|m|].
  - by rewrite !collectMeshes_Obj, !map_app, Hcs.
  - destruct (geometry m) as [g|] eqn:Hg.
    + rewrite !collectMeshes_Obj, (map_app collectMeshes), concat_app,
              !map_app, Hcs.
      cbn. by rewrite Hg, app_nil_r.
    + by rewrite !collectMeshes_Obj, !map_app, Hcs.
  - by rewrite !collectMeshes_Obj, !map_app, Hcs.
Qed.

(** X11. [setupEdges] adds no mesh and removes none, and leaves each
    mesh its [expressID], [modelID] and geometry: the elements
    indexed for validation and their vertices are the same before
    and after the edge outlines are set up. *)
Theorem setupEdges_keeps_meshes (o : Object3D num) :
  map (fun m => (expressID m, modelID m, geometry m))
      (collectMeshes (setupEdges o))
  = map (fun m => (expressID m, modelID m, geometry m)) (collectMeshes o).
Proof. apply setupEdges_projection. Qed.

(** Meshes without vertices add nothing to the overall box. *)
Lemma overallBox_without_vertices (meshes : list (Mesh num)) :
  Forall (fun m => vertices m = None \/ vertices m = Some []) meshes ->
  overallBox meshes = EmptyBox.
Proof.
  unfold overallBox. generalize (@EmptyBox num).
  intros b Hall. revert b.
  induction Hall as [|m meshes Hm _ IH]; intros b; [done|].
  cbn [fold_left]. unfold vertices in Hm.
  destruct (geometry m) as [g|]; cbn in Hm.
  - destruct Hm as [Hm|[= Hm]]; [done|]. rewrite Hm. cbn.
    replace (boxUnion b EmptyBox) with b by (by destruct b). apply IH.
  - apply IH.
Qed.
End GraphFacts.

(** ** Centering a model that has vertices *)

Section CenteringMore.
Context {num : Type} `{Float num}.

Lemma centerModel_modelUid (model : Model num) :
  modelUid (centerModel model).1 = modelUid model.
Proof.
  unfold centerModel.
  destruct (collectMeshes (root (updateMatrixWorld model))); [done|].
  by destruct (boxIsEmpty _).
Qed.

(** What centering does to a model whose overall box is not empty. *)
Lemma centerModel_shift (model : Model num) :
  boxIsEmpty (overallBox (collectMeshes (root (updateMatrixWorld model))))
  = false ->
  let center :=
    boxGetCenter (overallBox (collectMeshes (root (updateMatrixWorld model)))) in
  let centered := (centerModel model).1 in
  offset centered = Some center
  /\ modelPosition centered = vzero
  /\ map vertices (collectMeshes (root centered))
     = map (fun m => map (fun v => vadd v (vneg center)) <$> vertices m)
           (collectMeshes (root model))
  /\ map expressID (collectMeshes (root centered))
     = map expressID (collectMeshes (root model)).
Proof.
  intros Hbox center centered. subst centered. unfold centerModel.
  destruct (collectMeshes (root (updateMatrixWorld model))) as [|m0 ms] eqn:Hms;
    [done|].
  rewrite Hbox. fold center. cbn [fst].
  split_and!; [done..| |].
  - change vertices
      with (fun m : Mesh num => (fun core => position <$> core.1.2) (meshCore m)).
    rewrite (map_through_core _ _ _ (collectMeshes_updateMatrixWorld _)).
    cbn [root setRoot]. rewrite !collectMeshes_updateMeshes, Hms.
    rewrite <- (map_through_core
                  (fun core => map (fun v => vadd v (vneg center))
                                 <$> (position <$> core.1.2))
                  _ _ (collectMeshes_updateMatrixWorld model)).
    rewrite Hms, !map_map. apply map_ext. intros m. cbn.
    by destruct (geometry m).
  - change (@expressID num)
      with (fun m : Mesh num => (fun core => core.1.1.1) (meshCore m)).
    rewrite (map_through_core _ _ _ (collectMeshes_updateMatrixWorld _)).
    cbn [root setRoot]. rewrite !collectMeshes_updateMeshes, Hms.
    rewrite <- (map_through_core (fun core => core.1.1.1)
                  _ _ (collectMeshes_updateMatrixWorld model)).
    rewrite Hms, !map_map. by apply map_ext.
Qed.

(** X12. When the overall box of the model is not empty,
    [centerModel] records its center as the model's [offset], puts
    the model's position at zero, and moves every vertex of every
    mesh by the negated center; the meshes, in order, keep their
    [expressID]. *)
Theorem centerModel_shifts_vertices (model : Model num) :
  boxIsEmpty (overallBox (collectMeshes (root (updateMatrixWorld model))))
  = false ->
  let center :=
    boxGetCenter (overallBox (collectMeshes (root (updateMatrixWorld model)))) in
  let centered := (centerModel model).1 in
  offset centered = Some center
  /\ modelPosition centered = vzero
  /\ map vertices (collectMeshes (root centered))
     = map (fun m => map (fun v => vadd v (vneg center)) <$> vertices m)
           (collectMeshes (root model))
  /\ map expressID (collectMeshes (root centered))
     = map expressID (collectMeshes (root model)).
Proof. apply centerModel_shift. Qed.

(** X13. When no mesh of the model has a vertex, [centerModel] skips
    the centering: the [offset] stays as it was, so does the
    position, and no vertex list changes. *)
Theorem centerModel_without_vertices (model : Model num) :
  Forall (fun m => vertices m = None \/ vertices m = Some [])
         (collectMeshes (root model)) ->
  let centered := (centerModel model).1 in
  offset centered = offset model
  /\ modelPosition centered = modelPosition model
  /\ map vertices (collectMeshes (root centered))
     = map vertices (collectMeshes (root model)).
Proof.
  intros Hall centered. subst centered.
  pose proof (collectMeshes_updateMatrixWorld model) as Hcore.
  assert (Hall' : Forall (fun m => vertices m = None \/ vertices m = Some [])
                         (collectMeshes (root (updateMatrixWorld model)))).
  { assert (Hv : map vertices (collectMeshes (root (updateMatrixWorld model)))
                 = map vertices (collectMeshes (root model))).
    { change vertices
        with (fun m : Mesh num => (fun core => position <$> core.1.2)
                                    (meshCore m)).
      by apply map_through_core. }
    apply Forall_forall. intros m Hm.
    assert (Hin : vertices m ∈ map vertices (collectMeshes (root model))).
    { rewrite <- Hv. apply list_elem_of_fmap. by exists m. }
    apply list_elem_of_fmap in Hin as (m' & -> & Hm').
    rewrite Forall_forall in Hall. by apply Hall. }
  assert (Hv : map vertices (collectMeshes (root (updateMatrixWorld model)))
               = map vertices (collectMeshes (root model))).
  { change vertices
      with (fun m : Mesh num => (fun core => position <$> core.1.2)
                                  (meshCore m)).
    by apply map_through_core. }
  unfold centerModel.
  destruct (collectMeshes (root (updateMatrixWorld model))) as [|m0 ms] eqn:Hms.
  - cbn [fst]. by rewrite Hms.
  - rewrite (overallBox_without_vertices _ Hall'). cbn [boxIsEmpty fst].
    split_and!; [done..|].
    cbn [root setRoot]. rewrite collectMeshes_updateMeshes, Hms, <- Hv.
    rewrite map_map. apply map_ext. intros m. unfold vertices. cbn.
    by destruct (geometry m).
Qed.
End CenteringMore.

(** The model with the triangle: its center is (101, 202, 300) and
    the triangle ends up around the origin. *)
Lemma centerModel_shifts_vertices_witness :
  offset (centerModel Samples.solidModel).1 = Some (mkVector3 101 202 300)
  /\ modelPosition (centerModel Samples.solidModel).1 = mkVector3 0 0 0
  /\ map vertices (collectMeshes (root (centerModel Samples.solidModel).1))
     = [Some [mkVector3 (-1) (-2) 0; mkVector3 1 (-2) 0; mkVector3 (-1) 2 0]]
  /\ map expressID (collectMeshes (root (centerModel Samples.solidModel).1))
     = [Some 2].
Proof.
  exact (centerModel_shifts_vertices Samples.solidModel eq_refl).
Defined.

(** The wall model: its one mesh has no geometry. *)
Lemma centerModel_without_vertices_witness :
  offset (centerModel Demo.wallModel).1 = None
  /\ modelPosition (centerModel Demo.wallModel).1 = mkVector3 0 0 0
  /\ map vertices (collectMeshes (root (centerModel Demo.wallModel).1))
     = [None].
Proof.
  apply (centerModel_without_vertices Demo.wallModel).
  repeat constructor.
Defined.

(** ** Loading and disposing *)

Section LoadFacts.
Context {num : Type} `{Float num}.
Variable loader : IFCLoader num.

Lemma progressOf_app (es1 es2 : list Event) :
  progressOf (es1 ++ es2) = progressOf es1 ++ progressOf es2.
Proof. apply omap_app. Qed.

Lemma progressOf_disposeMesh (meshes : list (Mesh num)) :
  progressOf (concat (map disposeMesh meshes)) = [].
Proof.
  induction meshes as [|m meshes IH]; [done|]. cbn [map concat].
  rewrite progressOf_app, IH, app_nil_r. unfold disposeMesh.
  rewrite progressOf_app.
  replace (progressOf (match geometry m with
                       | Some _ => [DisposeGeometry] | None => [] end))
    with (@nil LoadingProgress) by (by destruct (geometry m)).
  destruct (material m) as [ms|]; [|done].
  induction ms as [|x ms IHms]; [done|]. exact IHms.
Qed.

Lemma progressOf_centerModel (model : Model num) :
  progressOf (centerModel model).2 = [].
Proof.
  unfold centerModel.
  destruct (collectMeshes (root (updateMatrixWorld model))); [done|].
  by destruct (boxIsEmpty _).
Qed.

Lemma downloadProgress_report (st : State (num := num)) ev :
  downloadProgress true st ev
  = match downloadReport ev with
    | Some p => emit st [OnProgress p]
    | None => st
    end.
Proof.
  unfold downloadProgress, downloadReport. cbn [andb].
  by destruct (lengthComputable ev).
Qed.

(** What the download handler changes: nothing but the events, to
    which it adds one report per computable progress event. *)
Lemma downloadProgress_fold onProgress evs :
  forall st : State (num := num),
    let st' := fold_left (downloadProgress onProgress) evs st in
    scene st' = scene st
    /\ currentModel st' = currentModel st
    /\ currentSubset st' = currentSubset st
    /\ progressOf (events st')
       = progressOf (events st)
         ++ (if onProgress then omap downloadReport evs else []).
Proof.
  induction evs as [|ev evs IH]; intros st; cbn [fold_left].
  - split_and!; try done. destruct onProgress; by rewrite app_nil_r.
  - destruct (IH (downloadProgress onProgress st ev))
      as (Hscene & Hmodel & Hsubset & Hprog).
    cbn zeta in *. rewrite Hscene, Hmodel, Hsubset, Hprog.
    destruct onProgress.
    + rewrite downloadProgress_report. csimpl.
      destruct (downloadReport ev) as [p|]; [|done].
      split_and!; try done. cbn [emit events].
      by rewrite progressOf_app, <- app_assoc.
    + unfold downloadProgress. cbn [andb]. done.
Qed.

Lemma reportProgress_fields onProgress (st : State (num := num)) p :
  let st' := reportProgress onProgress st p in
  scene st' = scene st
  /\ currentModel st' = currentModel st
  /\ currentSubset st' = currentSubset st
  /\ progressOf (events st')
     = progressOf (events st) ++ (if onProgress then [p] else []).
Proof.
  unfold reportProgress. destruct onProgress; cbn.
  - split_and!; try done. by rewrite progressOf_app.
  - split_and!; try done. by rewrite app_nil_r.
Qed.

Lemma disposeCurrentModel_fields (st : State (num := num)) :
  let st' := disposeCurrentModel st in
  currentModel st' = None
  /\ currentSubset st' = currentSubset st
  /\ scene st'
     = match currentModel st with
       | Some model => filter (fun i => i <> modelUid model) (scene st)
       | None => scene st
       end
  /\ progressOf (events st') = progressOf (events st).
Proof.
  unfold disposeCurrentModel. destruct (currentModel st) as [model|] eqn:Hm.
  - cbn. split_and!; try done.
    by rewrite !progressOf_app, progressOf_disposeMesh, !app_nil_r.
  - by split_and!.
Qed.

Lemma count_disposeGeometry (meshes : list (Mesh num)) :
  length (List.filter isDisposeGeometry (concat (map disposeMesh meshes)))
  = length (List.filter (fun m => bool_decide (is_Some (geometry m))) meshes).
Proof.
  induction meshes as [|m meshes IH]; [done|]. cbn [map concat List.filter].
  rewrite List.filter_app, length_app, IH. unfold disposeMesh.
  rewrite List.filter_app, length_app.
  assert (Hmat : length (List.filter isDisposeGeometry
                    (match material m with
                     | Some ms => map (fun _ => DisposeMaterial) ms
                     | None => []
                     end)) = 0%nat).
  { destruct (material m) as [ms|]; [|done].
    induction ms as [|x ms IHms]; [done|]. exact IHms. }
  rewrite Hmat. destruct (geometry m); cbn; lia.
Qed.

Lemma count_disposeMaterial (meshes : list (Mesh num)) :
  length (List.filter isDisposeMaterial (concat (map disposeMesh meshes)))
  = length (concat (map (fun m => default [] (material m)) meshes)).
Proof.
  induction meshes as [|m meshes IH]; [done|]. cbn [map concat].
  rewrite List.filter_app, !length_app, IH. f_equal. unfold disposeMesh.
  rewrite List.filter_app, length_app.
  replace (length (List.filter isDisposeMaterial
             (match geometry m with
              | Some _ => [DisposeGeometry] | None => [] end))) with 0%nat
    by (by destruct (geometry m)).
  destruct (material m) as [ms|]; [|done]. cbn.
  induction ms as [|x ms IHms]; [done|]. cbn. by rewrite IHms.
Qed.

(** X14. Disposing the current model leaves the manager without a
    model and takes the model out of the scene. Among the events it
    adds there is one geometry disposal for each mesh of the model
    that has a geometry and one material disposal for each material
    of each mesh. Disposing again does nothing. *)
Theorem disposeCurrentModel_releases (st : State (num := num)) model :
  currentModel st = Some model ->
  let st' := disposeCurrentModel st in
  currentModel st' = None
  /\ (modelUid model ∉ scene st')
  /\ (exists es,
        events st' = events st ++ es
        /\ length (List.filter isDisposeGeometry es)
           = length (List.filter
                       (fun m => bool_decide (is_Some (geometry m)))
                       (collectMeshes (root model)))
        /\ length (List.filter isDisposeMaterial es)
           = length (concat (map (fun m => default [] (material m))
                                 (collectMeshes (root model)))))
  /\ disposeCurrentModel st' = st'.
Proof.
  intros Hm st'. subst st'.
  destruct (disposeCurrentModel_fields st) as (Hnone & _ & Hscene & _).
  cbn zeta in *. rewrite Hm in Hscene. split_and!.
  - done.
  - rewrite Hscene. intros Hin. apply list_elem_of_filter in Hin as [Hne _].
    done.
  - unfold disposeCurrentModel. rewrite Hm. cbn. eexists.
    split; [by rewrite <- app_assoc|]. cbn [app List.filter].
    cbn [isDisposeGeometry isDisposeMaterial].
    by rewrite count_disposeGeometry, count_disposeMaterial.
  - unfold disposeCurrentModel at 1. by rewrite Hnone.
Qed.

(** X15. How [loadIFC] settles tells where the manager stands. When
    it resolves, the resolved model is the current one and has the
    identity of the model the engine parsed. When the download fails,
    no model is current, even if one was loaded before. When the
    engine set-up failed, nothing has changed at all. *)
Theorem loadIFC_outcome (st : State) url onProgress :
  let st' := (loadIFC loader st url onProgress).1 in
  match (loadIFC loader st url onProgress).2 with
  | Resolved m =>
      currentModel st' = Some m
      /\ exists parsed, (load loader url).2 = Ok parsed
                        /\ modelUid m = modelUid parsed
  | Rejected LoadError =>
      (load loader url).2 = Throw /\ currentModel st' = None
  | Rejected InitializationError =>
      useWebWorkers loader = Throw /\ st' = st
  | Rejected NoModelLoaded => False
  end.
Proof.
  unfold loadIFC. destruct (useWebWorkers loader); [|done].
  destruct (load loader url) as [evs res]. destruct res as [parsed|].
  - pose proof (centerModel_modelUid parsed) as Huid.
    destruct (centerModel parsed) as [centered out]. cbn [fst snd] in *.
    split; [done|]. exists parsed. by rewrite <- Huid.
  - cbn [fst snd]. split; [done|].
    destruct (reportProgress_fields onProgress
                (emit (fold_left (downloadProgress onProgress) evs
                         (reportProgress onProgress (disposeCurrentModel st)
                            (mkLoadingProgress 0 100 0 "Starting download...")))
                      [ConsoleError "IFCLoader error:";
                       ConsoleError "Error loading IFC model:"])
                (mkLoadingProgress 0 100 0 "Error loading model"))
      as (_ & -> & _).
    cbn [emit currentModel].
    destruct (downloadProgress_fold onProgress evs
                (reportProgress onProgress (disposeCurrentModel st)
                   (mkLoadingProgress 0 100 0 "Starting download...")))
      as (_ & -> & _).
    destruct (reportProgress_fields onProgress (disposeCurrentModel st)
                (mkLoadingProgress 0 100 0 "Starting download..."))
      as (_ & -> & _).
    by destruct (disposeCurrentModel_fields st) as (-> & _).
Qed.

(** X16. If the scene holds exactly the current model before
    [loadIFC], it does so afterwards, however the load ends: at no
    point are two models of the manager in the scene. *)
Theorem loadIFC_keeps_one_model (st : State (num := num)) url onProgress :
  sceneTracksModel st ->
  sceneTracksModel (loadIFC loader st url onProgress).1.
Proof.
  intros Hinv. unfold loadIFC. destruct (useWebWorkers loader); [|done].
  destruct (load loader url) as [evs res].
  destruct (downloadProgress_fold onProgress evs
              (reportProgress onProgress (disposeCurrentModel st)
                 (mkLoadingProgress 0 100 0 "Starting download...")))
    as (Hscene & Hmodel & _).
  destruct (reportProgress_fields onProgress (disposeCurrentModel st)
              (mkLoadingProgress 0 100 0 "Starting download..."))
    as (Hscene0 & Hmodel0 & _).
  destruct (disposeCurrentModel_fields st) as (Hmodel1 & _ & Hscene1 & _).
  cbn zeta in *.
  assert (Hempty : scene (disposeCurrentModel st) = []).
  { rewrite Hscene1. unfold sceneTracksModel in Hinv.
    destruct (currentModel st) as [model|]; rewrite Hinv; [|done].
    cbn. by rewrite decide_False by (intros Hne; by apply Hne). }
  set (X := fold_left (downloadProgress onProgress) evs _) in *.
  assert (HX : scene X = [] /\ currentModel X = None).
  { split; congruence. }
  clearbody X. destruct HX as [HXs HXm]. unfold sceneTracksModel.
  destruct res as [parsed|].
  - pose proof (centerModel_modelUid parsed) as Huid.
    destruct (centerModel parsed) as [centered out]. cbn [fst snd] in *.
    destruct onProgress; cbn; by rewrite HXs, Huid.
  - destruct onProgress; cbn; by rewrite HXs, HXm.
Qed.
End LoadFacts.

Section LoadAndHighlight.
Context {num : Type} `{Float num}.
Variable loader : IFCLoader num.

(** X17. With a callback, a load of a ready engine reports, in this
    order: 0 % at the start, one report for each download event whose
    length is computable, and last either 100 % with "Complete!" or
    0 % with "Error loading model". Without a callback it reports
    nothing. The report of a download event carries
    [Math.round ((loaded / total) * 100)] as doubles compute it,
    [NaN] or an infinity for a total of zero, and says
    "Downloading..." as long as that number is below 100. *)
Theorem loadIFC_progress (st : State (num := num)) url u :
  useWebWorkers loader = Ok u ->
  progressOf (events (loadIFC loader st url true).1)
  = progressOf (events st)
    ++ mkLoadingProgress 0 100 0 "Starting download..."
       :: omap downloadReport (load loader url).1
    ++ [match (load loader url).2 with
        | Ok _ => mkLoadingProgress 100 100 100 "Complete!"
        | Throw => mkLoadingProgress 0 100 0 "Error loading model"
        end]
  /\ progressOf (events (loadIFC loader st url false).1)
     = progressOf (events st).
Proof.
  intros Hready. unfold loadIFC. rewrite Hready.
  destruct (load loader url) as [evs res]. cbn [fst snd].
  split.
  - destruct (downloadProgress_fold true evs
                (reportProgress true (disposeCurrentModel st)
                   (mkLoadingProgress 0 100 0 "Starting download...")))
      as (_ & _ & _ & Hprog).
    destruct (reportProgress_fields true (disposeCurrentModel st)
                (mkLoadingProgress 0 100 0 "Starting download..."))
      as (_ & _ & _ & Hprog0).
    destruct (disposeCurrentModel_fields st) as (_ & _ & _ & Hprog1).
    cbn zeta in *. rewrite Hprog0, Hprog1 in Hprog.
    set (X := fold_left (downloadProgress true) evs _) in *. clearbody X.
    destruct res as [parsed|].
    + pose proof (progressOf_centerModel parsed) as Hout.
      destruct (centerModel parsed) as [centered out]. cbn [fst snd] in *.
      cbn. rewrite !progressOf_app, Hprog, Hout. cbn.
      by rewrite app_nil_r, <- !app_assoc.
    + cbn. rewrite !progressOf_app, Hprog. cbn.
      by rewrite <- !app_assoc.
  - destruct (downloadProgress_fold false evs
                (reportProgress false (disposeCurrentModel st)
                   (mkLoadingProgress 0 100 0 "Starting download...")))
      as (_ & _ & _ & Hprog).
    destruct (disposeCurrentModel_fields st) as (_ & _ & _ & Hprog1).
    cbn zeta in *. rewrite app_nil_r in Hprog.
    cbn [reportProgress] in Hprog. rewrite Hprog1 in Hprog.
    set (X := fold_left (downloadProgress false) evs _) in *. clearbody X.
    destruct res as [parsed|].
    + pose proof (progressOf_centerModel parsed) as Hout.
      destruct (centerModel parsed) as [centered out]. cbn [fst snd] in *.
      cbn. rewrite !progressOf_app, Hprog, Hout. cbn.
      by rewrite !app_nil_r.
    + cbn. rewrite !progressOf_app, Hprog. cbn. by rewrite app_nil_r.
Qed.

Lemma loadIFC_current (st : State (num := num)) url onProgress u parsed :
  useWebWorkers loader = Ok u ->
  (load loader url).2 = Ok parsed ->
  currentModel (loadIFC loader st url onProgress).1
  = Some (setRoot (centerModel parsed).1
                  (setupEdges (root (centerModel parsed).1))).
Proof.
  intros Hready Hload. unfold loadIFC. rewrite Hready.
  destruct (load loader url) as [evs res]. cbn in Hload. subst res.
  by destruct (centerModel parsed).
Qed.

(** X18. A highlight lies on the element it marks. After a model with
    a non-empty overall box is loaded, highlighting with a subset that
    the engine built from the original vertices of the model's [i]-th
    mesh shows exactly the vertices that this mesh has in the loaded,
    centered model. *)
Theorem highlight_matches_centered_mesh
    (st : State (num := num)) url onProgress u parsed (i : nat) mesh
    (mid eid : Z) subset :
  useWebWorkers loader = Ok u ->
  (load loader url).2 = Ok parsed ->
  boxIsEmpty (overallBox (collectMeshes (root (updateMatrixWorld parsed))))
  = false ->
  collectMeshes (root parsed) !! i = Some mesh ->
  createSubset loader mid [eid] = Ok subset ->
  vertices subset = vertices mesh ->
  let st' :=
    highlightElement loader (loadIFC loader st url onProgress).1 mid eid in
  exists model mesh' shown,
    currentModel st' = Some model
    /\ collectMeshes (root model) !! i = Some mesh'
    /\ currentSubset st' = Some shown
    /\ vertices shown = vertices mesh'.
Proof.
  intros Hready Hload Hbox Hmesh Hsub Hsame st'. subst st'.
  pose proof (loadIFC_current st url onProgress u parsed Hready Hload) as Hcur.
  destruct (centerModel_shift parsed Hbox)
    as (Hoff & _ & Hverts & _). cbn zeta in *.
  set (center := boxGetCenter _) in *.
  set (centered := (centerModel parsed).1) in *.
  set (final := setRoot centered (setupEdges (root centered))) in *.
  assert (Hfinal : map vertices (collectMeshes (root final))
                   = map vertices (collectMeshes (root centered))).
  { pose proof (setupEdges_projection (root centered)) as Hkeep.
    apply (f_equal (map (fun t : option Z * option Z * option (BufferGeometry num)
                          => position <$> t.2))) in Hkeep.
    rewrite !map_map in Hkeep. exact Hkeep. }
  assert (Hlook : map vertices (collectMeshes (root final)) !! i
                  = Some (map (fun v => vadd v (vneg center)) <$> vertices mesh)).
  { rewrite Hfinal, Hverts. change (map ?f ?l) with (f <$> l).
    by rewrite list_lookup_fmap, Hmesh. }
  change (map vertices ?l) with (vertices <$> l) in Hlook.
  rewrite list_lookup_fmap in Hlook.
  destruct (collectMeshes (root final) !! i) as [mesh'|] eqn:Hmesh'; [|done].
  injection Hlook as Hlook.
  unfold highlightElement.
  rewrite removeHighlight_currentModel, Hcur. fold centered. fold final.
  rewrite Hsub. cbn [offset setRoot final]. rewrite Hoff.
  eexists final, mesh', _. split_and!.
  - cbn [currentModel setCurrentSubset emit].
    rewrite removeHighlight_currentModel. exact Hcur.
  - exact Hmesh'.
  - reflexivity.
  - rewrite Hlook, <- Hsame. unfold vertices, withGeometry. cbn.
    by destruct (geometry subset).
Qed.

(** X19. If the engine cannot build the subset, no highlight is left
    behind: with a model loaded and the old highlight, if any, removed
    by the engine, [highlightElement] ends with no current subset and
    with the error on the console. *)
Theorem highlightElement_create_failure
    (st : State (num := num)) (mid eid : Z) model :
  currentModel st = Some model ->
  createSubset loader mid [eid] = Throw ->
  (forall old, currentSubset st = Some old ->
     removeSubset loader (default 0 (modelID old)) = Ok tt) ->
  let st' := highlightElement loader st mid eid in
  currentSubset st' = None
  /\ currentModel st' = Some model
  /\ last (events st') = Some (ConsoleError "Error creating highlight subset:").
Proof.
  intros Hm Hthrow Hok st'. subst st'. unfold highlightElement.
  rewrite removeHighlight_currentModel, Hm, Hthrow.
  cbn [emit currentSubset currentModel events].
  split_and!.
  - unfold removeHighlight.
    destruct (currentSubset st) as [old|] eqn:Hold; [|done].
    by rewrite (Hok old eq_refl).
  - by rewrite removeHighlight_currentModel.
  - by rewrite last_snoc.
Qed.
End LoadAndHighlight.

(** ** Selecting objects *)

Section SelectionFacts.
Context {num : Type} `{Float num}.
Variable loader : IFCLoader num.

Lemma removeHighlight_removals (st : State (num := num)) :
  (forall old, currentSubset st = Some old ->
     removeSubset loader (default 0 (modelID old)) = Ok tt) ->
  currentSubset (removeHighlight loader st) = None
  /\ currentModel (removeHighlight loader st) = currentModel st
  /\ length (List.filter isRemoval (events (removeHighlight loader st)))
     = (length (List.filter isRemoval (events st))
        + match currentSubset st with Some _ => 1 | None => 0 end)%nat.
Proof.
  intros Hok. unfold removeHighlight.
  destruct (currentSubset st) as [old|] eqn:Hold.
  - rewrite (Hok old eq_refl). cbn. split_and!; [done..|].
    by rewrite List.filter_app, length_app.
  - split_and!; [done..|]. lia.
Qed.

(** X20. Selecting something that is not an IFC element (an object
    that is no mesh, or a mesh without [expressID]) leaves no
    highlight, provided the engine removes the old one: the selection
    is recorded and no subset is current afterwards. *)
Theorem selectObject_without_element
    (v : Viewer (num := num)) (object : Object3D num) :
  (forall mesh, asMesh object = Some mesh -> expressID mesh = None) ->
  (forall old, currentSubset (manager v) = Some old ->
     removeSubset loader (default 0 (modelID old)) = Ok tt) ->
  let v' := selectObject loader v object in
  selectedObject v' = Some object
  /\ currentSubset (manager v') = None
  /\ currentModel (manager v') = currentModel (manager v).
Proof.
  intros Hplain Hok v'. subst v'.
  destruct (removeHighlight_removals (manager v) Hok) as (Hnone & Hmodel & _).
  unfold selectObject, deselectObject, onObjectSelected.
  cbn [manager selectedObject mbind option_bind].
  destruct (asMesh object) as [mesh|] eqn:Hmesh; cbn.
  - by rewrite (Hplain mesh eq_refl).
  - unfold removeHighlight at 1 3. by rewrite Hnone.
Qed.

(** X21. Selecting an IFC element of the loaded model highlights it:
    the subset the engine builds, moved by the negated offset if the
    model has one, is the current subset. Although the handler clears
    the highlight twice on the way, the engine gets one
    [removeSubset] call if a highlight was live and none otherwise. *)
Theorem selectObject_highlights_element
    (v : Viewer (num := num)) (object : Object3D num) mesh eid model subset :
  asMesh object = Some mesh ->
  expressID mesh = Some eid ->
  currentModel (manager v) = Some model ->
  (forall old, currentSubset (manager v) = Some old ->
     removeSubset loader (default 0 (modelID old)) = Ok tt) ->
  createSubset loader (default 0 (modelID mesh)) [eid] = Ok subset ->
  let v' := selectObject loader v object in
  selectedObject v' = Some object
  /\ currentSubset (manager v')
     = Some (match offset model with
             | Some off => withGeometry (fun g => translate g (vneg off)) subset
             | None => subset
             end)
  /\ length (List.filter isRemoval (events (manager v')))
     = (length (List.filter isRemoval (events (manager v)))
        + match currentSubset (manager v) with Some _ => 1 | None => 0 end)%nat.
Proof.
  intros Hmesh Heid Hm Hok Hsub v'. subst v'.
  destruct (removeHighlight_removals (manager v) Hok)
    as (Hnone & Hmodel & Hcount).
  unfold selectObject, deselectObject, onObjectSelected.
  cbn [manager selectedObject mbind option_bind]. rewrite Hmesh, Heid.
  unfold highlightElement.
  assert (Hagain : removeHighlight loader (removeHighlight loader (manager v))
                   = removeHighlight loader (manager v)).
  { unfold removeHighlight at 1. by rewrite Hnone. }
  rewrite Hagain, Hmodel, Hm, Hsub. cbn. split_and!; [done..|].
  rewrite List.filter_app, length_app. cbn. lia.
Qed.
End SelectionFacts.

(** ** What the property bundle holds *)

Section BundleFacts.
Context {num : Type} `{Float num}.
Variable loader : IFCLoader num.

Lemma fallback_null (mid : Z) (assocs : list jsval) :
  fold_left (fallbackStep loader mid) assocs None = None.
Proof.
  induction assocs as [|a assocs IH]; [done|]. cbn [fold_left].
  replace (fallbackStep loader mid None a) with (@None (list IfcRecord));
    [done|].
  unfold fallbackStep. destruct (getItemProperties loader mid a) as [ap|]; [|done].
  destruct (_ || _); [|done].
  by destruct (getItemProperties loader mid (rec_expressID ap)).
Qed.

Lemma fallback_fold (mid : Z) (assocs : list jsval) :
  forall sets,
    exists extra,
      fold_left (fallbackStep loader mid) assocs (Some sets)
      = Some (sets ++ extra)
      /\ Forall (fromAssociation loader mid assocs) extra.
Proof.
  induction assocs as [|a assocs IH]; intros sets; cbn [fold_left].
  - exists []. by rewrite app_nil_r.
  - assert (Hweaken : forall extra,
              Forall (fromAssociation loader mid assocs) extra ->
              Forall (fromAssociation loader mid (a :: assocs)) extra).
    { intros extra Hextra. eapply Forall_impl; [exact Hextra|].
      intros s (a' & ap & Ha' & Hrest). exists a', ap. split; [by right|done]. }
    unfold fallbackStep at 2.
    destruct (getItemProperties loader mid a) as [ap|] eqn:Hap;
      [|destruct (IH sets) as (extra & -> & Hex); eauto].
    destruct (_ || _) eqn:Hkind;
      [|destruct (IH sets) as (extra & -> & Hex); eauto].
    destruct (getItemProperties loader mid (rec_expressID ap)) as [full|] eqn:Hfull;
      [|destruct (IH sets) as (extra & -> & Hex); eauto].
    destruct (IH (sets ++ [full])) as (extra & -> & Hex).
    exists (full :: extra). split; [by rewrite <- app_assoc|].
    constructor; [|by apply Hweaken].
    exists a, ap. split; [left|done].
Qed.

Lemma collectMaterials_spec (mid : Z) (assocs : list jsval) :
  forall acc,
    exists extra,
      collectMaterials loader mid assocs acc = acc ++ extra
      /\ (length extra <= length assocs)%nat
      /\ Forall (materialOf loader mid assocs) extra.
Proof.
  induction assocs as [|a assocs IH]; intros acc; cbn [collectMaterials].
  - exists []. by rewrite app_nil_r.
  - assert (Hweaken : forall extra,
              Forall (materialOf loader mid assocs) extra ->
              Forall (materialOf loader mid (a :: assocs)) extra).
    { intros extra Hextra. eapply Forall_impl; [exact Hextra|].
      intros s (a' & Ha' & Hrest). exists a'. split; [by right|done]. }
    destruct (getItemProperties loader mid a) as [ap|] eqn:Hap.
    + destruct (_ || _) eqn:Hkind.
      * destruct (IH (acc ++ [ap])) as (extra & -> & Hlen & Hex).
        exists (ap :: extra). split_and!; [by rewrite <- app_assoc|cbn; lia|].
        constructor; [|by apply Hweaken].
        exists a. split_and!; [left|done|].
        apply orb_true_iff in Hkind as [Hk|Hk]; [by left|right].
        by apply bool_decide_eq_true in Hk.
      * destruct (IH acc) as (extra & -> & Hlen & Hex).
        exists extra. split_and!; [done|cbn; lia|by apply Hweaken].
    + exists []. rewrite app_nil_r. split_and!; [done|cbn; lia|constructor].
Qed.

(** X22. When the engine answers the property-set request with null,
    the bundle's [propertySets] is null as well: the fallback search
    runs but cannot add anything. *)
Theorem getElementProperties_null_sets (mesh : Mesh num) b :
  getElementProperties loader mesh = Some b ->
  getPropertySets loader (default 0 (modelID mesh)) (jsOfId (expressID mesh))
  = Ok None ->
  propertySets b = None.
Proof.
  unfold getElementProperties.
  destruct (expressID mesh) as [eid|]; [|done]. cbn [jsOfId].
  destruct (getItemProperties loader _ _) as [props|]; [|done].
  intros Hb Hsets. rewrite Hsets in Hb. injection Hb as <-. cbn.
  unfold fallbackPsets. destruct (rec_HasAssociations props); [|done].
  cbn. apply fallback_null.
Qed.

(** X23. The sets the engine returned are kept, in order, at the head
    of the bundle's [propertySets]. Nothing is added when there is at
    least one; when there is none, each added set is the full record
    of one of the element's associations that is typed as a property
    set or a quantity set. *)
Theorem getElementProperties_sets (mesh : Mesh num) b sets :
  getElementProperties loader mesh = Some b ->
  getPropertySets loader (default 0 (modelID mesh)) (jsOfId (expressID mesh))
  = Ok (Some sets) ->
  exists extra,
    propertySets b = Some (sets ++ extra)
    /\ (sets <> [] -> extra = [])
    /\ Forall (fromAssociation loader (bundle_modelID b)
                 (default [] (rec_HasAssociations (properties b)))) extra.
Proof.
  unfold getElementProperties.
  destruct (expressID mesh) as [eid|]; [|done]. cbn [jsOfId].
  destruct (getItemProperties loader _ _) as [props|]; [|done].
  intros Hb Hsets. rewrite Hsets in Hb. injection Hb as <-. cbn.
  unfold fallbackPsets. destruct (rec_HasAssociations props) as [assocs|]; cbn.
  - case_bool_decide as Hnil.
    + destruct (fallback_fold (default 0 (modelID mesh)) assocs sets)
        as (extra & -> & Hex).
      exists extra. by split_and!.
    + exists []. rewrite app_nil_r. by split_and!.
  - exists []. rewrite app_nil_r. by split_and!.
Qed.

(** X24. Every material of the bundle is the record of one of the
    element's associations, typed as a material or carrying a name,
    and there are at most as many materials as associations. *)
Theorem getElementProperties_materials (mesh : Mesh num) b :
  getElementProperties loader mesh = Some b ->
  Forall (materialOf loader (bundle_modelID b)
            (default [] (rec_HasAssociations (properties b))))
         (materials b)
  /\ (length (materials b)
      <= length (default [] (rec_HasAssociations (properties b))))%nat.
Proof.
  unfold getElementProperties.
  destruct (expressID mesh) as [eid|]; [|done].
  destruct (getItemProperties loader _ _) as [props|]; [|done].
  destruct (getPropertySets loader _ _) as [psets|]; [|done].
  intros [= <-]. cbn.
  destruct (rec_HasAssociations props) as [assocs|]; cbn; [|by split].
  destruct (collectMaterials_spec (default 0 (modelID mesh)) assocs [])
    as (extra & -> & Hlen & Hex).
  by split.
Qed.
End BundleFacts.

(** ** The further properties on the sample data *)

(** Disposing the model with the triangle: one geometry and two
    materials are released. *)
Lemma disposeCurrentModel_releases_witness :
  currentModel (disposeCurrentModel Samples.viewingSolid) = None
  /\ (21 ∉ scene (disposeCurrentModel Samples.viewingSolid))
  /\ (exists es,
        events (disposeCurrentModel Samples.viewingSolid) = [] ++ es
        /\ length (List.filter isDisposeGeometry es) = 1%nat
        /\ length (List.filter isDisposeMaterial es) = 2%nat)
  /\ disposeCurrentModel (disposeCurrentModel Samples.viewingSolid)
     = disposeCurrentModel Samples.viewingSolid.
Proof.
  exact (disposeCurrentModel_releases Samples.viewingSolid Samples.solidModel
           eq_refl).
Defined.

(** Reloading while the model with the triangle is shown. *)
Lemma loadIFC_keeps_one_model_witness :
  sceneTracksModel
    (loadIFC Samples.solidLoader Samples.viewingSolid "again.ifc" true).1.
Proof.
  apply (loadIFC_keeps_one_model Samples.solidLoader Samples.viewingSolid).
  reflexivity.
Defined.

(** A successful load with two download events, one of them without a
    computable length. *)
Lemma loadIFC_progress_witness :
  progressOf (events (loadIFC Samples.solidLoader Demo.idle "a.ifc" true).1)
  = [mkLoadingProgress 0 100 0 "Starting download...";
     mkLoadingProgress 50 100 50 "Downloading...";
     mkLoadingProgress 100 100 100 "Complete!"]
  /\ progressOf (events (loadIFC Samples.solidLoader Demo.idle "a.ifc" false).1)
     = [].
Proof.
  exact (loadIFC_progress Samples.solidLoader Demo.idle "a.ifc" tt eq_refl).
Defined.

(** What a download event is reported as. 23 of 40 bytes are 57 %:
    the product of the quotient with 100 is the double below 57.5.
    The full length is 100 % and no longer "Downloading...". A
    computable length of zero gives [NaN] or an infinity, neither of
    which is below 100. *)
Example downloadReport_samples :
  downloadReport (mkProgressEvent true 23 40)
  = Some (mkLoadingProgress 23 40 57 "Downloading...")
  /\ downloadReport (mkProgressEvent true 40 40)
     = Some (mkLoadingProgress 40 40 100 "Processing geometry...")
  /\ downloadReport (mkProgressEvent true 0 0)
     = Some (mkLoadingProgress 0 0 NaN "Processing geometry...")
  /\ downloadReport (mkProgressEvent true 5 0)
     = Some (mkLoadingProgress 5 0 PosInfinity "Processing geometry...")
  /\ downloadReport (mkProgressEvent false 5 10) = None.
Proof. split_and!; vm_compute; reflexivity. Qed.

(** Loading the model with the triangle, then highlighting its
    mesh. *)
Lemma highlight_matches_centered_mesh_witness :
  exists model mesh' shown,
    currentModel
      (highlightElement Samples.solidLoader
         (loadIFC Samples.solidLoader Demo.idle "a.ifc" true).1 0 2)
    = Some model
    /\ collectMeshes (root model) !! 0%nat = Some mesh'
    /\ currentSubset
         (highlightElement Samples.solidLoader
            (loadIFC Samples.solidLoader Demo.idle "a.ifc" true).1 0 2)
       = Some shown
    /\ vertices shown = vertices mesh'.
Proof.
  exact (highlight_matches_centered_mesh Samples.solidLoader Demo.idle "a.ifc"
           true tt Samples.solidModel 0 Samples.solidMesh 0 2 Demo.subsetMesh
           eq_refl eq_refl eq_refl eq_refl eq_refl eq_refl).
Defined.

(** The engine that cannot build subsets. *)
Lemma highlightElement_create_failure_witness :
  currentSubset (highlightElement Samples.brokenLoader Samples.viewingSolid 0 2)
  = None
  /\ currentModel (highlightElement Samples.brokenLoader Samples.viewingSolid 0 2)
     = Some Samples.solidModel
  /\ last (events (highlightElement Samples.brokenLoader Samples.viewingSolid
                     0 2))
     = Some (ConsoleError "Error creating highlight subset:").
Proof.
  apply (highlightElement_create_failure Samples.brokenLoader
           Samples.viewingSolid 0 2 Samples.solidModel).
  - reflexivity.
  - reflexivity.
  - intros old Hold. discriminate Hold.
Defined.

(** Clicking the root group while the wall is highlighted. *)
Lemma selectObject_without_element_witness :
  selectedObject
    (selectObject Demo.wallLoader (mkViewer None Demo.highlightedWall)
       Demo.emptyRoot) = Some Demo.emptyRoot
  /\ currentSubset
       (manager
          (selectObject Demo.wallLoader (mkViewer None Demo.highlightedWall)
             Demo.emptyRoot)) = None
  /\ currentModel
       (manager
          (selectObject Demo.wallLoader (mkViewer None Demo.highlightedWall)
             Demo.emptyRoot)) = Some Demo.wallModel.
Proof.
  apply (selectObject_without_element Demo.wallLoader
           (mkViewer None Demo.highlightedWall) Demo.emptyRoot).
  - intros mesh Hmesh. discriminate Hmesh.
  - intros old Hold. reflexivity.
Defined.

(** Clicking the wall while another highlight is live: one removal,
    and the new subset is shown at the origin. *)
Lemma selectObject_highlights_element_witness :
  let v := mkViewer None
             (mkState [13] (Some Demo.centeredModel) (Some Demo.subsetMesh) []) in
  let wall := Obj Demo.identity (KMesh Demo.wallMesh) [] in
  selectedObject (selectObject Demo.wallLoader v wall) = Some wall
  /\ currentSubset (manager (selectObject Demo.wallLoader v wall))
     = Some (withGeometry
               (fun g => translate g (vneg (mkVector3 100 200 300)))
               Demo.subsetMesh)
  /\ length (List.filter isRemoval
               (events (manager (selectObject Demo.wallLoader v wall))))
     = 1%nat.
Proof.
  intros v wall.
  apply (selectObject_highlights_element Demo.wallLoader v wall Demo.wallMesh 1
           Demo.centeredModel Demo.subsetMesh).
  - reflexivity.
  - reflexivity.
  - reflexivity.
  - intros old Hold. reflexivity.
  - reflexivity.
Defined.

(** The door, with the engine answering null. *)
Lemma getElementProperties_null_sets_witness :
  propertySets
    (mkBundle Samples.doorRecord None [Samples.doorCommon; Samples.oak] None 1 0)
  = None.
Proof.
  apply (getElementProperties_null_sets Samples.nullSetsLoader Samples.doorMesh).
  - reflexivity.
  - reflexivity.
Defined.

(** The door: its property set is found through the associations,
    and both associated records count as materials, the set because
    it has a name. *)
Lemma getElementProperties_sets_witness :
  let b := mkBundle Samples.doorRecord (Some [Samples.doorCommon])
                    [Samples.doorCommon; Samples.oak] None 1 0 in
  getElementProperties Samples.doorLoader Samples.doorMesh = Some b
  /\ exists extra,
       propertySets b = Some ([] ++ extra)
       /\ (@nil IfcRecord <> [] -> extra = [])
       /\ Forall (fromAssociation Samples.doorLoader (bundle_modelID b)
                    (default [] (rec_HasAssociations (properties b)))) extra.
Proof.
  intros b. split; [reflexivity|].
  apply (getElementProperties_sets Samples.doorLoader Samples.doorMesh b []).
  - reflexivity.
  - reflexivity.
Defined.

Lemma getElementProperties_materials_witness :
  let b := mkBundle Samples.doorRecord (Some [Samples.doorCommon])
                    [Samples.doorCommon; Samples.oak] None 1 0 in
  Forall (materialOf Samples.doorLoader (bundle_modelID b)
            (default [] (rec_HasAssociations (properties b))))
         (materials b)
  /\ (length (materials b)
      <= length (default [] (rec_HasAssociations (properties b))))%nat.
Proof.
  intros b.
  apply (getElementProperties_materials Samples.doorLoader Samples.doorMesh b).
  reflexivity.
Defined.
